(** * chatapp.services: heuristic scorer, question generator and follow-up flow

    A shallow embedding of [chatapp/services.py] (with the rows of
    [chatapp/models.py] it persists) and the properties of its scoring
    and follow-up state machine.

    Conventions of the embedding.
    - Python [str] is [string]; the characters are the 7-bit ASCII ones
      (codes above 127 are kept as uncased, non-blank characters).
    - Python [int] is [Z]; [len] results are [nat].
    - Python [float] is the rational it denotes.  Every float operation is
      the exact operation followed by the rounding [fl] of the result to
      the nearest binary64 number; [fl] is a parameter of the development,
      so a statement proved here holds for every rounding operator (the
      exact one, [fl_exact], included) unless it names the laws it needs.
    - [random.choice] and [random.sample] read their draw from an extra
      argument, so that a statement quantified over the draw speaks about
      every possible outcome.
    - The Django tables are a record of finite maps and lists that the
      flow functions thread through explicitly. *)

From Stdlib Require Import ZArith QArith Qround Lqa String Ascii List Bool Lia.
From stdpp Require Import base option list gmap strings pretty.

Local Open Scope string_scope.
#[local] Set Warnings "-register-all".

(** ** Python text primitives *)

(** [str.isspace] on one ASCII character: TAB, LF, VT, FF, CR, the four
    separators FS, GS, RS, US and the space. *)
Definition is_space (c : ascii) : bool :=
  let n := nat_of_ascii c in
  ((9 <=? n)%nat && (n <=? 13)%nat) || ((28 <=? n)%nat && (n <=? 32)%nat).

(** [str.lower] on one ASCII character. *)
Definition lower_char (c : ascii) : ascii :=
  let n := nat_of_ascii c in
  if ((65 <=? n)%nat && (n <=? 90)%nat) then ascii_of_nat (n + 32) else c.

(** A string of blanks only. *)
Fixpoint blank (s : string) : bool :=
  match s with
  | EmptyString => true
  | String c rest => is_space c && blank rest
  end.

(** A string without a blank. *)
Fixpoint blank_free (s : string) : bool :=
  match s with
  | EmptyString => true
  | String c rest => negb (is_space c) && blank_free rest
  end.

(** [s.lower()] *)
Fixpoint py_lower (s : string) : string :=
  match s with
  | EmptyString => EmptyString
  | String c rest => String (lower_char c) (py_lower rest)
  end.

(** [s.split()]: the maximal runs of non-blank characters, in order. *)
Fixpoint py_split (s : string) : list string :=
  match s with
  | EmptyString => []
  | String c rest =>
      if is_space c then py_split rest
      else match rest with
           | EmptyString => [String c EmptyString]
           | String d _ =>
               if is_space d then String c EmptyString :: py_split rest
               else match py_split rest with
                    | w :: ws => String c w :: ws
                    | [] => [String c EmptyString]
                    end
           end
  end.

Fixpoint py_lstrip (s : string) : string :=
  match s with
  | EmptyString => EmptyString
  | String c rest => if is_space c then py_lstrip rest else s
  end.

Fixpoint py_rstrip (s : string) : string :=
  match s with
  | EmptyString => EmptyString
  | String c rest =>
      match py_rstrip rest with
      | EmptyString => if is_space c then EmptyString else String c EmptyString
      | kept => String c kept
      end
  end.

(** [s.strip()] *)
Definition py_strip (s : string) : string := py_rstrip (py_lstrip s).

(** [s[:n]] *)
Fixpoint py_take (n : nat) (s : string) : string :=
  match n, s with
  | S k, String c rest => String c (py_take k rest)
  | _, _ => EmptyString
  end.

Fixpoint starts_with (p s : string) : bool :=
  match p, s with
  | EmptyString, _ => true
  | String a p', String b s' => Ascii.eqb a b && starts_with p' s'
  | String _ _, EmptyString => false
  end.

(** [needle in hay] *)
Fixpoint py_contains (needle hay : string) : bool :=
  starts_with needle hay ||
  match hay with
  | EmptyString => false
  | String _ rest => py_contains needle rest
  end.

(** [s.count(ch)] for a one-character [ch] *)
Fixpoint py_count (ch : ascii) (s : string) : nat :=
  match s with
  | EmptyString => 0
  | String c rest => (if Ascii.eqb c ch then 1 else 0) + py_count ch rest
  end.

(** [', '.join(parts)] and its like *)
Fixpoint py_join (sep : string) (parts : list string) : string :=
  match parts with
  | [] => EmptyString
  | [p] => p
  | p :: rest => p +:+ sep +:+ py_join sep rest
  end.

Definition newline : ascii := ascii_of_nat 10.

(** ** Python numbers *)

Definition Qltb (x y : Q) : bool := negb (Qle_bool y x).

(** [min(a, b)] and [max(a, b)] return the first argument unless the
    second is strictly smaller (greater). *)
Definition py_min (a b : Q) : Q := if Qltb b a then b else a.
Definition py_max (a b : Q) : Q := if Qltb a b then b else a.

(** The integer nearest to [x], ties to the even one. *)
Definition round_half_even (x : Q) : Z :=
  let f := Qfloor x in
  let d := (x - inject_Z f)%Q in
  if Qltb d (1 # 2) then f
  else if Qltb (1 # 2) d then (f + 1)%Z
  else if Z.even f then f else (f + 1)%Z.

(** The multiple of 1/10 nearest to [x], as a reduced fraction. *)
Definition nearest_tenth (x : Q) : Q :=
  Qred (inject_Z (round_half_even (x * 10)) / 10).

(** The exact arithmetic, an instance of the rounding parameter. *)
Definition fl_exact (x : Q) : Q := x.

(** ** Dynamically typed request values

    [target_followups] reaches the flow as whatever the JSON body held. *)

Inductive PyFloat :=
  | FFinite (q : Q)
  | FInf (negative : bool)
  | FNan.

Inductive PyVal :=
  | PNone
  | PBool (b : bool)
  | PInt (z : Z)
  | PFloat (f : PyFloat)
  | PStr (s : string)
  | PList (items : list PyVal)
  | PDict (items : list (string * PyVal)).

Inductive PyExn :=
  | TypeError
  | ValueError
  | OverflowError.

Inductive outcome (A : Type) :=
  | Returned (a : A)
  | Raised (e : PyExn).
Arguments Returned {A} a.
Arguments Raised {A} e.

(** Truth value of an object, as [or] and [if] test it. *)
Definition py_truthy (v : PyVal) : bool :=
  match v with
  | PNone => false
  | PBool b => b
  | PInt z => negb (z =? 0)%Z
  | PFloat (FFinite q) => negb (Qeq_bool q 0)
  | PFloat _ => true
  | PStr s => negb (String.eqb s EmptyString)
  | PList items => match items with [] => false | _ => true end
  | PDict items => match items with [] => false | _ => true end
  end.

(** [a or b] *)
Definition py_or (a b : PyVal) : PyVal := if py_truthy a then a else b.

(** Truncation toward zero, [float.__int__] on a finite float. *)
Definition Qtruncate (q : Q) : Z :=
  if Qle_bool 0 q then Qfloor q else Qceiling q.

(** ** Constants of the module *)

Definition MIN_FOLLOW_UP_COUNT : Z := 1.
Definition FOLLOW_UP_COUNT : Z := 8.
Definition DEFAULT_LANGUAGE : string := "en".
Definition QUESTION_COUNT : Z := 10.

Record FollowUpPair := {
  pair_question : string;
  pair_answer : string;
}.

(** ** Rows of the tables ([chatapp/models.py]) *)

Record Session := {
  s_username : string;
  s_topic : string;
  s_language : string;
}.

(** [Answer]; its [question] is the (session id, question index) pair
    that [unique_together] makes a key of [Question]. *)
Record Answer := {
  a_question : Z * Z;
  a_answer_text : string;
  a_initial_score : option Q;
  a_final_score : option Q;
  a_average_score : option Q;
  a_initial_feedback : string;
  a_final_feedback : string;
  a_target_followups : Z;
  a_completed_followups : Z;
}.

(** [FollowUp]; its [answer] and [followup_index] are its key in the
    table, again by [unique_together]. *)
Record FollowUp := {
  fu_question_text : string;
  fu_answer_text : string;
  fu_score : option Q;
  fu_feedback : string;
}.

(** The tables.  Sessions and answers have an auto-incremented id: the
    row with id [i] is the [i]-th of the list, counted from 1. *)
Record Store := {
  sessions : list Session;
  questions : gmap (Z * Z) string;
  answers : list Answer;
  followups : gmap (Z * nat) FollowUp;
}.

Definition empty_store : Store :=
  {| sessions := []; questions := ∅; answers := []; followups := ∅ |}.

Definition session_matches (user topic language : string) (s : Session) : bool :=
  String.eqb (s_username s) user && String.eqb (s_topic s) topic
  && String.eqb (s_language s) language.

(** The ids, counted from [first], of the rows of [rows] that [p] accepts. *)
Fixpoint matching_ids (p : Session → bool) (first : Z) (rows : list Session) : list Z :=
  match rows with
  | [] => []
  | s :: rest =>
      (if p s then [first] else []) ++ matching_ids p (first + 1) rest
  end.

(** [Session.objects.get_or_create(username=, topic=, language=)];
    [None] is [MultipleObjectsReturned]. *)
Definition session_get_or_create (st : Store) (user topic language : string)
  : option (Z * Store) :=
  match matching_ids (session_matches user topic language) 1 (sessions st) with
  | [] =>
      let row := {| s_username := user; s_topic := topic; s_language := language |} in
      Some (Z.of_nat (length (sessions st)) + 1,
            {| sessions := sessions st ++ [row]; questions := questions st;
               answers := answers st; followups := followups st |})%Z
  | [i] => Some (i, st)
  | _ => None
  end.

(** [Question.objects.get_or_create(session=, question_index=, defaults=)] *)
Definition question_get_or_create (st : Store) (key : Z * Z) (text : string) : Store :=
  match questions st !! key with
  | Some _ => st
  | None =>
      {| sessions := sessions st; questions := <[key := text]> (questions st);
         answers := answers st; followups := followups st |}
  end.

(** [Answer.objects.create(question=, answer_text=, target_followups=)] *)
Definition answer_create (st : Store) (key : Z * Z) (text : string) (target : Z)
  : Z * Store :=
  let row := {| a_question := key; a_answer_text := text;
                a_initial_score := None; a_final_score := None;
                a_average_score := None; a_initial_feedback := EmptyString;
                a_final_feedback := EmptyString; a_target_followups := target;
                a_completed_followups := 0 |} in
  (Z.of_nat (length (answers st)) + 1,
   {| sessions := sessions st; questions := questions st;
      answers := answers st ++ [row]; followups := followups st |})%Z.

(** [Answer.objects.get(id=)]; [None] is [Answer.DoesNotExist]. *)
Definition answer_get (st : Store) (id : Z) : option Answer :=
  if (1 <=? id)%Z then answers st !! Z.to_nat (id - 1) else None.

(** [answer_obj.save()] for the row with id [id] *)
Definition answer_save (st : Store) (id : Z) (row : Answer) : Store :=
  {| sessions := sessions st; questions := questions st;
     answers := <[Z.to_nat (id - 1) := row]> (answers st);
     followups := followups st |}.

Definition followup_put (st : Store) (key : Z * nat) (row : FollowUp) : Store :=
  {| sessions := sessions st; questions := questions st;
     answers := answers st; followups := <[key := row]> (followups st) |}.

(** [FollowUp.objects.get_or_create(answer=, followup_index=, defaults=)]:
    the row and whether it was created. *)
Definition followup_get_or_create (st : Store) (key : Z * nat)
    (question_text answer_text : string) : FollowUp * bool * Store :=
  match followups st !! key with
  | Some row => (row, false, st)
  | None =>
      let row := {| fu_question_text := question_text; fu_answer_text := answer_text;
                    fu_score := None; fu_feedback := EmptyString |} in
      (row, true, followup_put st key row)
  end.

(** Truth value of an optional id, as [if answer_id:] tests it. *)
Definition id_truthy (answer_id : option Z) : option Z :=
  match answer_id with
  | Some id => if (id =? 0)%Z then None else Some id
  | None => None
  end.

(** ** Results of the scorers and of the flow *)

Record Evaluation := {
  score : Q;
  feedback : string;
}.

Record AttachmentEvaluation := {
  att_score : Q;
  att_feedback : string;
  att_topic : string;
  att_user : string;
  att_question : string;
  att_language : string;
  att_sub_dialogue : list FollowUpPair;
}.

Record FollowupEvaluation := {
  fe_question : string;
  fe_answer : string;
  fe_score : Q;
  fe_feedback : string;
}.

(** The dict that asks for the next follow-up; [p_answer_id] is [None]
    where the dict has no such key. *)
Record Prompt := {
  p_needs_followups : bool;
  p_follow_ups : list string;
  p_followup_index : Z;
  p_max_followups : Z;
  p_target_followups : Z;
  p_answer_id : option (option Z);
  p_consultant_note : string;
}.

(** The dict of the final evaluation. *)
Record Report := {
  r_needs_followups : bool;
  r_final_score : Q;
  r_original_score : Q;
  r_followup_scores : list Q;
  r_average_score : Q;
  r_feedback : string;
  r_evaluation_original : Evaluation;
  r_evaluation_followups : list FollowupEvaluation;
  r_followup_index : Z;
  r_max_followups : Z;
  r_target_followups : Z;
}.

Inductive Response :=
  | AskNext (p : Prompt)
  | Evaluated (r : Report).

(** [response["needs_followups"]] *)
Definition needs_followups (resp : Response) : bool :=
  match resp with
  | AskNext p => p_needs_followups p
  | Evaluated r => r_needs_followups r
  end.

Definition NO_ANSWER : string := "No answer was provided.".
Definition STRONG : string :=
  "Strong, detailed answer with good structure and coverage of the question.".
Definition REASONABLE : string :=
  "Reasonable answer with okay coverage. It could be improved with more concrete detail and clearer structure.".
Definition SHALLOW : string :=
  "Answer is too shallow or not clearly connected to the question. " +:+
  "Add concrete examples, explain key terms, and address all parts of the prompt.".

(** ** Follow-up and question templates *)

Definition _followup_scaffolding : list (list string) :=
  [ (* Examples & Evidence *)
    [ "Can you list concrete examples that support your earlier point?";
      "Could you provide specific examples to illustrate what you mentioned?";
      "What real-world examples can you give to back up your statement?";
      "Can you share some concrete instances that demonstrate your point?" ];
    (* Data & Citations *)
    [ "What data or citations back up your response?";
      "What evidence or sources support your answer?";
      "Can you provide any data or references that validate your point?";
      "What research or documentation supports what you've said?" ];
    (* Expansion & Clarity *)
    [ "Where could the initial answer be expanded for clarity?";
      "What parts of your answer could use more detail or explanation?";
      "Which aspects would benefit from a deeper explanation?";
      "What additional context would make your answer clearer?" ];
    (* Edge Cases & Counter-arguments *)
    [ "Are there edge cases or counter-arguments you did not cover?";
      "What edge cases or exceptions should be considered?";
      "Are there any scenarios where your answer might not apply?";
      "What alternative perspectives or counter-arguments exist?" ];
    (* Beginner Explanation *)
    [ "How would you explain this to a beginner in one paragraph?";
      "Can you simplify this explanation for someone new to the topic?";
      "How would you make this more accessible to a beginner?";
      "What's a beginner-friendly way to explain this concept?" ];
    (* Practical Steps *)
    [ "Which practical steps should the user take next?";
      "What are the next steps someone should follow?";
      "What actionable steps would you recommend?";
      "What would be the practical next steps in this situation?" ];
    (* Risks & Unknowns *)
    [ "Summarize the critical risks or unknowns that remain.";
      "What are the main risks or uncertainties to be aware of?";
      "What potential issues or unknowns should be considered?";
      "What are the key risks or gaps that need attention?" ];
    (* Checklist & Summary *)
    [ "Provide a concise checklist the user can follow.";
      "Can you create a step-by-step checklist for this?";
      "What would a practical checklist look like for this?";
      "Can you summarize this as a clear, actionable checklist?" ];
    (* Implementation Details *)
    [ "What are the specific implementation details you would focus on?";
      "Can you elaborate on the technical implementation aspects?";
      "What are the key technical details needed for implementation?";
      "What implementation considerations are most important?" ];
    (* Troubleshooting *)
    [ "What common issues might arise and how would you handle them?";
      "What problems could occur and what are the solutions?";
      "What troubleshooting steps would you recommend?";
      "How would you handle potential issues or errors?" ] ].

(** The pool of [generate_question_set]. *)
Definition all_templates : list string :=
  [ (* Core concepts *)
    "Explain the core concept of {topic} and when you would use it.";
    "What is {topic} and what problem does it solve?";
    "Describe the fundamental principles behind {topic}.";
    "What are the key characteristics that define {topic}?";
    (* Architecture & Design *)
    "Describe the main building blocks or architecture of a typical {topic} solution.";
    "What is the typical structure or design pattern used in {topic}?";
    "How is {topic} typically organized or structured?";
    "What components make up a standard {topic} implementation?";
    (* Code & Implementation *)
    "Show a short code example that demonstrates {topic} in practice and explain it line by line.";
    "Write a simple example showing how {topic} works in code.";
    "Demonstrate {topic} with a practical code snippet and explain each part.";
    "Provide a code example that illustrates the basic usage of {topic}.";
    (* Comparisons & Trade-offs *)
    "What are the biggest advantages and disadvantages of using {topic} compared to alternatives?";
    "How does {topic} compare to similar technologies or approaches?";
    "What are the pros and cons of choosing {topic} for a project?";
    "When should you use {topic} versus other options?";
    (* Real-world Applications *)
    "Describe a realistic real-world application where {topic} is a great fit and explain why.";
    "Give an example of a practical scenario where {topic} would be the best choice.";
    "What types of projects or problems benefit most from using {topic}?";
    "Describe a real-world use case for {topic} and explain the benefits.";
    (* Common Issues & Mistakes *)
    "Explain common mistakes or pitfalls developers face when working with {topic}, and how to avoid them.";
    "What are the most frequent errors people make with {topic} and how can they be prevented?";
    "What should developers be careful about when using {topic}?";
    "What are common gotchas or traps when working with {topic}?";
    (* Integration & Ecosystem *)
    "How does {topic} interact with or depend on other key technologies in its ecosystem?";
    "What other technologies or tools work well with {topic}?";
    "How does {topic} fit into the broader technology landscape?";
    "What dependencies or integrations are typically needed for {topic}?";
    (* Debugging & Problem-solving *)
    "Imagine a bug caused by incorrect use of {topic}. How would you debug and fix it?";
    "If something goes wrong with {topic}, what steps would you take to troubleshoot?";
    "Describe a debugging scenario involving {topic} and how you would resolve it.";
    "What debugging strategies work best for {topic}-related issues?";
    (* Teaching & Explanation *)
    "How would you teach {topic} to a beginner who already knows basic programming?";
    "Explain {topic} as if you were teaching it to someone new to the concept.";
    "How would you introduce {topic} to a colleague who has never used it?";
    "What's the best way to explain {topic} to someone unfamiliar with it?";
    (* Summary & Best Practices *)
    "Summarize {topic} in a concise paragraph, then list a few advanced tips or best practices.";
    "Give a brief overview of {topic} and share some expert-level recommendations.";
    "Provide a summary of {topic} along with some best practices for using it effectively.";
    "What are the key points about {topic} and what advanced techniques should developers know?";
    (* Performance & Optimization *)
    "What are the performance characteristics of {topic} and how can it be optimized?";
    "How does {topic} perform under different conditions and what affects its efficiency?";
    "What optimization techniques are relevant when working with {topic}?";
    (* Security & Best Practices *)
    "What security considerations should developers keep in mind when using {topic}?";
    "What are the security implications of using {topic} and how can risks be mitigated?";
    "How should {topic} be used securely in production environments?" ].

Definition PLACEHOLDER : string := "{topic}".

(** [template.format(topic=topic)]: every [{topic}] field of the template
    becomes the topic, which is inserted as it is and not scanned again.
    [skip] counts the characters of a field still to be passed over. *)
Fixpoint format_from (skip : nat) (template topic : string) : string :=
  match template with
  | EmptyString => EmptyString
  | String c rest =>
      match skip with
      | S k => format_from k rest topic
      | O =>
          if starts_with PLACEHOLDER template
          then topic +:+ format_from 6 rest topic
          else String c (format_from 0 rest topic)
      end
  end.

Definition format_topic (template topic : string) : string :=
  format_from 0 template topic.

(** [random.choice(seq)] when the generator draws position [draw]. *)
Definition random_choice (draw : nat) (seq : list string) : string :=
  nth (draw mod length seq) seq EmptyString.

(** [random.sample(population, k)] when the generator draws the positions
    [draw], which the library takes pairwise different and inside the
    population. *)
Definition random_sample (draw : list nat) (population : list string) (k : nat)
  : list string :=
  (λ i, nth i population EmptyString) <$> take k draw.

(** What [random.sample] guarantees of its draw. *)
Definition sample_draw (draw : list nat) (size k : nat) : Prop :=
  NoDup draw ∧ length draw = k ∧ Forall (λ i, i < size) draw.

(** ** The service functions *)

Section Services.

(** Rounding of an exact result to the nearest float. *)
Variable fl : Q → Q.
(** [int(s)] for a [str]; [None] is [ValueError]. *)
Variable int_of_str : string → option Z.
(** [str(x)] for a [float]. *)
Variable float_str : Q → string.

(** An [int] operand of a float operation *)
Definition float_of_int (z : Z) : Q := fl (inject_Z z).

(** [round(x, 1)] *)
Definition py_round1 (x : Q) : Q := fl (nearest_tenth x).

(** The distinct lower-cased tokens of the question longer than 3. *)
Definition question_terms (question : string) : gset string :=
  list_to_set (py_lower <$> filter (λ token, 3 < String.length token) (py_split question)).

(** The terms that occur in the lower-cased answer. *)
Definition matched_terms (question answer : string) : gset string :=
  filter (λ term, py_contains term (py_lower answer) = true) (question_terms question).

Definition _coverage_penalty (question answer : string) : Z :=
  let terms := question_terms question in
  if decide (size terms = 0) then 0%Z
  else
    let matches := size (matched_terms question answer) in
    let coverage_ratio := fl (inject_Z (Z.of_nat matches) / inject_Z (Z.of_nat (size terms))) in
    if Qle_bool (fl (6 # 10)) coverage_ratio then 0%Z
    else if Qle_bool (fl (3 # 10)) coverage_ratio then 1%Z
    else 2%Z.

(** [len(normalized_answer.split())] *)
Definition word_count (answer_text : string) : nat :=
  length (py_split (py_strip answer_text)).

Definition length_score (wc : nat) : Q :=
  py_min 5 (fl (float_of_int (Z.of_nat wc) / 15)).

Definition sentence_endings (normalized_answer : string) : nat :=
  py_count "."%char normalized_answer + py_count "!"%char normalized_answer
  + py_count "?"%char normalized_answer.

Definition structure_bonus (normalized_answer : string) : Q :=
  let b0 := 0%Q in
  let b1 := if (2 <=? sentence_endings normalized_answer)%nat then fl (b0 + 1) else b0 in
  if py_contains (String newline EmptyString) normalized_answer
  then fl (b1 + (1 # 2)) else b1.

Definition followup_bonus (sub_dialogue : option (list FollowUpPair)) : Q :=
  match sub_dialogue with
  | None | Some [] => 0%Q
  | Some turns => py_min 1 (fl (float_of_int (Z.of_nat (length turns)) * (1 # 4)))
  end.

(** [max(0.0, min(10.0, round(raw_score, 1)))] *)
Definition clamp_score (raw_score : Q) : Q :=
  py_max 0 (py_min 10 (py_round1 raw_score)).

Definition feedback_for (s : Q) : string :=
  if Qle_bool 8 s then STRONG
  else if Qle_bool 5 s then REASONABLE
  else SHALLOW.

Definition evaluate_single_answer_with_attachment
    (topic user question answer_text language : string)
    (sub_dialogue : option (list FollowUpPair)) : AttachmentEvaluation :=
  let normalized_answer := py_strip answer_text in
  let wc := length (py_split normalized_answer) in
  if decide (wc = 0) then
    {| att_score := 0; att_feedback := NO_ANSWER; att_topic := topic;
       att_user := user; att_question := question; att_language := language;
       att_sub_dialogue := default [] sub_dialogue |}
  else
    let coverage_penalty := _coverage_penalty question normalized_answer in
    let raw_score :=
      fl (fl (fl (length_score wc + structure_bonus normalized_answer)
              + followup_bonus sub_dialogue)
          - float_of_int coverage_penalty) in
    let s := clamp_score raw_score in
    {| att_score := s; att_feedback := feedback_for s; att_topic := topic;
       att_user := user; att_question := question; att_language := language;
       att_sub_dialogue := default [] sub_dialogue |}.

Definition evaluate_answer_individually (question_text answer_text language : string)
  : Evaluation :=
  let normalized_answer := py_strip answer_text in
  let wc := length (py_split normalized_answer) in
  if decide (wc = 0) then {| score := 0; feedback := NO_ANSWER |}
  else
    let coverage_penalty := _coverage_penalty question_text normalized_answer in
    let raw_score :=
      fl (fl (length_score wc + structure_bonus normalized_answer)
          - float_of_int coverage_penalty) in
    let s := clamp_score raw_score in
    {| score := s; feedback := feedback_for s |}.

(** [sum(scores)]: the floats are added from the left onto the integer 0. *)
Definition py_sum (scores : list Q) : Q :=
  foldl (λ acc s, fl (acc + s)) 0%Q scores.

Definition calculate_average_score (original_score : Q) (followup_scores : list Q) : Q :=
  match followup_scores with
  | [] => original_score
  | _ =>
      let all_scores := original_score :: followup_scores in
      py_round1 (fl (py_sum all_scores / float_of_int (Z.of_nat (length all_scores))))
  end.

(** [int(target)] *)
Definition py_int (v : PyVal) : outcome Z :=
  match v with
  | PNone => Raised TypeError
  | PBool b => Returned (if b then 1 else 0)%Z
  | PInt z => Returned z
  | PFloat (FFinite q) => Returned (Qtruncate q)
  | PFloat (FInf _) => Raised OverflowError
  | PFloat FNan => Raised ValueError
  | PStr s => match int_of_str s with Some z => Returned z | None => Raised ValueError end
  | PList _ | PDict _ => Raised TypeError
  end.

Definition _normalize_followup_target (target : PyVal) : outcome Z :=
  match target with
  | PNone => Returned FOLLOW_UP_COUNT
  | _ =>
      match py_int target with
      | Returned parsed =>
          Returned (Z.max MIN_FOLLOW_UP_COUNT (Z.min FOLLOW_UP_COUNT parsed))
      | Raised TypeError | Raised ValueError => Returned FOLLOW_UP_COUNT
      | Raised e => Raised e
      end
  end.

(** [plan_target] of [continue_followups]:
    [_normalize_followup_target(target_followups or FOLLOW_UP_COUNT)] *)
Definition plan_target (target_followups : PyVal) : outcome Z :=
  _normalize_followup_target (py_or target_followups (PInt FOLLOW_UP_COUNT)).

Definition context_suffix (topic original_question : string) : string :=
  " (Regarding " +:+ topic +:+ ": " +:+ py_strip (py_take 60 original_question) +:+ ")".

(** [scaffolding[asked_count % len(scaffolding)]] *)
Definition category_index (asked_count : Z) : Z :=
  (asked_count mod Z.of_nat (length _followup_scaffolding))%Z.

Definition category_variations (asked_count : Z) : list string :=
  nth (Z.to_nat (category_index asked_count)) _followup_scaffolding [].

Definition generate_next_follow_up_question
    (topic user original_question original_answer language : string)
    (asked_count : Z) (draw : nat) : string :=
  let selected_template := random_choice draw (category_variations asked_count) in
  selected_template +:+ context_suffix topic original_question.

Definition generate_question_set (topic : string) (count : Z) (language : string)
    (draw : list nat) : list string :=
  let safe_count := Z.max 1 (Z.min count QUESTION_COUNT) in
  let selected_templates :=
    random_sample draw all_templates
      (Z.to_nat (Z.min safe_count (Z.of_nat (length all_templates)))) in
  (λ template, format_topic template topic) <$> selected_templates.

Definition handle_question_flow (st : Store)
    (topic user question main_answer language : string)
    (question_index : option Z) (draw : nat) : Response * Store :=
  (* Save to database WITHOUT evaluation; any failure leaves answer_id None *)
  let '(answer_id, st1) :=
    match session_get_or_create st user topic language with
    | Some (session, st_s) =>
        let key := (session, default 0%Z question_index) in
        let st_q := question_get_or_create st_s key question in
        let '(id, st_a) := answer_create st_q key main_answer FOLLOW_UP_COUNT in
        (Some id, st_a)
    | None => (None, st)
    end in
  (* Generate first follow-up question *)
  let first_followup :=
    generate_next_follow_up_question topic user question main_answer language 0 draw in
  (* Save first follow-up question to database *)
  let st2 :=
    match id_truthy answer_id with
    | Some id =>
        match answer_get st1 id with
        | Some _ =>
            (followup_get_or_create st1 (id, 0) first_followup EmptyString).2
        | None => st1
        end
    | None => st1
    end in
  (AskNext {| p_needs_followups := true;
              p_follow_ups := [first_followup];
              p_followup_index := 1;
              p_max_followups := FOLLOW_UP_COUNT;
              p_target_followups := FOLLOW_UP_COUNT;
              p_answer_id := Some answer_id;
              p_consultant_note :=
                "I need to ask you 8 clarification questions before I can evaluate your answer. Let's start!" |},
   st2).

Definition finalize_followups (topic user question main_answer : string)
    (followup_pairs : list FollowUpPair) (language : string)
  : Q * string * AttachmentEvaluation :=
  let final_eval :=
    evaluate_single_answer_with_attachment topic user question main_answer language
      (Some followup_pairs) in
  (att_score final_eval, att_feedback final_eval, final_eval).

(** The loop that saves or updates the follow-ups of answer [id], the
    first of [pairs] at index [idx]. *)
Fixpoint save_followups (st : Store) (id : Z) (idx : nat) (pairs : list FollowUpPair)
  : Store :=
  match pairs with
  | [] => st
  | turn :: rest =>
      let '(row, created, st') :=
        followup_get_or_create st (id, idx) (pair_question turn) (pair_answer turn) in
      let st'' :=
        if created then st'
        else followup_put st' (id, idx)
               {| fu_question_text := pair_question turn;
                  fu_answer_text := pair_answer turn;
                  fu_score := fu_score row; fu_feedback := fu_feedback row |} in
      save_followups st'' id (S idx) rest
  end.

(** The loop that writes the scores; [FollowUp.DoesNotExist] ends it. *)
Fixpoint score_followups (st : Store) (id : Z) (idx : nat)
    (evaluations : list FollowupEvaluation) : Store :=
  match evaluations with
  | [] => st
  | ev :: rest =>
      match followups st !! (id, idx) with
      | Some row =>
          let st' := followup_put st (id, idx)
                       {| fu_question_text := fu_question_text row;
                          fu_answer_text := fu_answer_text row;
                          fu_score := Some (fe_score ev);
                          fu_feedback := fe_feedback ev |} in
          score_followups st' id (S idx) rest
      | None => st
      end
  end.

Definition evaluate_pair (language : string) (turn : FollowUpPair) : FollowupEvaluation :=
  let followup_eval :=
    evaluate_answer_individually (pair_question turn) (pair_answer turn) language in
  {| fe_question := pair_question turn; fe_answer := pair_answer turn;
     fe_score := score followup_eval; fe_feedback := feedback followup_eval |}.

Definition continue_followups (st : Store)
    (topic user question main_answer : string)
    (followup_pairs : list FollowUpPair) (language : string)
    (target_followups : PyVal) (answer_id : option Z) (draw : nat)
  : outcome Response * Store :=
  let normalized_pairs := followup_pairs in
  let asked_count := length normalized_pairs in
  match plan_target target_followups with
  | Raised e => (Raised e, st)
  | Returned _ =>
      (* Save follow-ups to database (without evaluation yet) *)
      let st1 :=
        match id_truthy answer_id with
        | Some id =>
            match answer_get st id with
            | Some answer_obj =>
                let st' := save_followups st id 0 normalized_pairs in
                answer_save st' id
                  {| a_question := a_question answer_obj;
                     a_answer_text := a_answer_text answer_obj;
                     a_initial_score := a_initial_score answer_obj;
                     a_final_score := a_final_score answer_obj;
                     a_average_score := a_average_score answer_obj;
                     a_initial_feedback := a_initial_feedback answer_obj;
                     a_final_feedback := a_final_feedback answer_obj;
                     a_target_followups := a_target_followups answer_obj;
                     a_completed_followups := Z.of_nat asked_count |}
            | None => st
            end
        | None => st
        end in
      (* Check if all 8 follow-ups are complete *)
      let should_finalize := (FOLLOW_UP_COUNT <=? Z.of_nat asked_count)%Z in
      if should_finalize then
        let original_eval := evaluate_answer_individually question main_answer language in
        let original_score := score original_eval in
        let followup_evaluations := evaluate_pair language <$> normalized_pairs in
        let followup_scores := fe_score <$> followup_evaluations in
        let average_score := calculate_average_score original_score followup_scores in
        let st2 :=
          match id_truthy answer_id with
          | Some id =>
              match answer_get st1 id with
              | Some answer_obj =>
                  let st' :=
                    answer_save st1 id
                      {| a_question := a_question answer_obj;
                         a_answer_text := a_answer_text answer_obj;
                         a_initial_score := Some original_score;
                         a_final_score := Some average_score;
                         a_average_score := Some average_score;
                         a_initial_feedback := feedback original_eval;
                         a_final_feedback :=
                           "Average score from 1 original answer and "
                           +:+ pretty asked_count +:+ " follow-ups: "
                           +:+ float_str average_score +:+ "/10";
                         a_target_followups := a_target_followups answer_obj;
                         a_completed_followups := Z.of_nat asked_count |} in
                  score_followups st' id 0 followup_evaluations
              | None => st1
              end
          | None => st1
          end in
        (Returned (Evaluated
           {| r_needs_followups := false;
              r_final_score := average_score;
              r_original_score := original_score;
              r_followup_scores := followup_scores;
              r_average_score := average_score;
              r_feedback :=
                "Evaluation complete! Average score calculated from 1 original answer ("
                +:+ float_str original_score +:+ "/10) and " +:+ pretty asked_count
                +:+ " follow-ups (" +:+ py_join ", " (float_str <$> followup_scores)
                +:+ "/10 each).";
              r_evaluation_original := original_eval;
              r_evaluation_followups := followup_evaluations;
              r_followup_index := Z.of_nat asked_count;
              r_max_followups := FOLLOW_UP_COUNT;
              r_target_followups := FOLLOW_UP_COUNT |}),
         st2)
      else
        (* Not all follow-ups answered yet - ask next one *)
        let next_followup :=
          generate_next_follow_up_question topic user question main_answer language
            (Z.of_nat asked_count) draw in
        let st2 :=
          match id_truthy answer_id with
          | Some id =>
              match answer_get st1 id with
              | Some _ =>
                  (followup_get_or_create st1 (id, asked_count) next_followup
                     EmptyString).2
              | None => st1
              end
          | None => st1
          end in
        (Returned (AskNext
           {| p_needs_followups := true;
              p_follow_ups := [next_followup];
              p_followup_index := Z.of_nat asked_count + 1;
              p_max_followups := FOLLOW_UP_COUNT;
              p_target_followups := FOLLOW_UP_COUNT;
              p_answer_id := None;
              p_consultant_note :=
                "Please answer this clarification question ("
                +:+ pretty (asked_count + 1) +:+ " of " +:+ pretty FOLLOW_UP_COUNT
                +:+ "). After all " +:+ pretty FOLLOW_UP_COUNT
                +:+ " follow-ups, I'll evaluate everything together." |}),
         st2)
  end.

(** The stores the two flow operations reach from the empty tables. *)
Inductive reachable : Store → Prop :=
  | reach_empty : reachable empty_store
  | reach_initial st topic user question main_answer language question_index draw :
      reachable st →
      reachable (handle_question_flow st topic user question main_answer language
                   question_index draw).2
  | reach_continue st topic user question main_answer followup_pairs language
        target_followups answer_id draw :
      reachable st →
      reachable (continue_followups st topic user question main_answer followup_pairs
                   language target_followups answer_id draw).2.

End Services.

(** ** Instances of the parameters

    The exact arithmetic [fl_exact] with a reader of signed decimal
    numerals and a printer of tenths, on which the statements below are
    exercised. *)

Definition digit_value (c : ascii) : option Z :=
  let n := nat_of_ascii c in
  if ((48 <=? n)%nat && (n <=? 57)%nat) then Some (Z.of_nat (n - 48)) else None.

Fixpoint digits_value (acc : Z) (s : string) : option Z :=
  match s with
  | EmptyString => Some acc
  | String c rest =>
      match digit_value c with
      | Some d => digits_value (10 * acc + d) rest
      | None => None
      end
  end.

(** [int(s)] on an optional sign and ASCII digits between blanks. *)
Definition decimal_int (s : string) : option Z :=
  match py_strip s with
  | EmptyString => None
  | String c rest =>
      if Ascii.eqb c "-"%char then
        match rest with
        | EmptyString => None
        | _ => Z.opp <$> digits_value 0 rest
        end
      else if Ascii.eqb c "+"%char then
        match rest with
        | EmptyString => None
        | _ => digits_value 0 rest
        end
      else digits_value 0 (String c rest)
  end.

(** [str(x)] on a multiple of 1/10 that is not negative, as in [6.5]. *)
Definition tenths_str (x : Q) : string :=
  let t := round_half_even (x * 10) in
  pretty (t / 10)%Z +:+ "." +:+ pretty (t mod 10)%Z.



(** ** Templates, for the statements about the generators *)


(** [s[n:]] *)
Fixpoint py_drop (n : nat) (s : string) : string :=
  match n, s with
  | S k, String _ rest => py_drop k rest
  | _, _ => s
  end.

(** The text before and after the first [{topic}] of a template. *)
Fixpoint split_placeholder (template : string) : option (string * string) :=
  match template with
  | EmptyString => None
  | String c rest =>
      if starts_with PLACEHOLDER template then Some (EmptyString, py_drop 7 template)
      else match split_placeholder rest with
           | Some (pre, post) => Some (String c pre, post)
           | None => None
           end
  end.

Definition parts_of (template : string) : string * string :=
  default (EmptyString, EmptyString) (split_placeholder template).

(** A test that two templates, given by their parts, differ whatever the
    topic is: their lengths differ, or neither text before the field
    begins the other, or the texts before agree and the texts after
    differ. *)
Definition separable (a b : string * string) : bool :=
  negb (String.length a.1 + String.length a.2 =? String.length b.1 + String.length b.2)%nat
  || (negb (starts_with a.1 b.1) && negb (starts_with b.1 a.1))
  || (String.eqb a.1 b.1 && negb (String.eqb a.2 b.2)).

Definition templates_separable : bool :=
  let positions := seq 0 (length all_templates) in
  forallb (λ i,
    forallb (λ j,
      (i =? j)%nat
      || separable (parts_of (nth i all_templates EmptyString))
                   (parts_of (nth j all_templates EmptyString)))
      positions)
    positions.

(** ** The words of the coverage rule *)



(** An answer row that carries no score. *)
Definition unscored (a : Answer) : Prop :=
  a_initial_score a = None ∧ a_final_score a = None ∧ a_average_score a = None.

(** No answer has [final_score] set while one of its follow-ups has no
    score. *)
Definition all_or_nothing (st : Store) : Prop :=
  ∀ id a idx f,
    answer_get st id = Some a → is_Some (a_final_score a) →
    followups st !! (id, idx) = Some f → is_Some (fu_score f).

(** What the flow keeps true of the tables between two requests: the
    follow-ups from index 8 on are scored, and an answer with a final
    score has its follow-ups 0 to 7, all scored. *)
Definition flow_invariant (st : Store) : Prop :=
  (∀ id idx f, followups st !! (id, idx) = Some f → (8 ≤ idx)%nat →
     is_Some (fu_score f)) ∧
  (∀ id a idx, answer_get st id = Some a → is_Some (a_final_score a) → (idx < 8)%nat →
     ∃ f, followups st !! (id, idx) = Some f ∧ is_Some (fu_score f)).

(** A follow-up turn to exercise the flow on. *)
Definition sample_turn : FollowUpPair :=
  {| pair_question := "What data or citations back up your response? (Regarding algorithms: Explain recursion in detail)";
     pair_answer := "Recursion is explained in detail by every textbook. See the data there." |}.

(** ** The remaining service functions *)

(** [items[:n]] *)
Definition py_list_prefix {A : Type} (n : Z) (items : list A) : list A :=
  if (0 <=? n)%Z then take (Z.to_nat n) items
  else take (length items - Z.to_nat (- n)) items.

(** The batch of follow-up prompts; [draws idx] is what [random.choice]
    draws in the round [idx] of the loop. *)
Definition generate_follow_up_question_set
    (topic user original_question original_answer language : string)
    (min_questions max_questions : Z) (draws : nat → nat) : list string :=
  let target_count := Z.max min_questions (Z.min max_questions FOLLOW_UP_COUNT) in
  let followups :=
    (λ idx, random_choice (draws idx) (category_variations (Z.of_nat idx))
            +:+ context_suffix topic original_question)
    <$> seq 0 (Z.to_nat target_count) in
  py_list_prefix target_count followups.

Definition _planned_followup_target (initial_score : Q) : Z :=
  if Qle_bool 8 initial_score then MIN_FOLLOW_UP_COUNT
  else if Qle_bool 6 initial_score then 2%Z
  else if Qle_bool 4 initial_score then 4%Z
  else if Qle_bool 2 initial_score then 6%Z
  else FOLLOW_UP_COUNT.

(** ** The request helpers and views ([chatapp/views.py])

    A view is given what [json.loads] made of the request body, [None]
    when the body is no JSON text; a JSON object is the list of its
    members, a key bound to the first value listed for it.  The
    decorators, which let POST requests only through to the view, are
    not part of the embedding. *)

(** [ValidationError] with its message, or the value. *)
Inductive checked (A : Type) :=
  | Accepted (a : A)
  | ValidationError (message : string).
Arguments Accepted {A} a.
Arguments ValidationError {A} message.

Fixpoint dict_lookup (key : string) (items : list (string * PyVal)) : option PyVal :=
  match items with
  | [] => None
  | (k, v) :: rest => if String.eqb k key then Some v else dict_lookup key rest
  end.

(** [payload.get(key)] and [payload.get(key, fallback)] *)
Definition payload_get (key : string) (payload : list (string * PyVal)) : PyVal :=
  default PNone (dict_lookup key payload).
Definition payload_get_or (key : string) (fallback : PyVal)
    (payload : list (string * PyVal)) : PyVal :=
  default fallback (dict_lookup key payload).

Inductive Body :=
  | ErrorBody (error : string)
  | QuestionsBody (topic : string) (language : PyVal) (count : nat)
      (questions : list string)
  | FlowBody (flow_result : Response)
  | FinalBody (final_score : Q) (feedback : string) (evaluation : AttachmentEvaluation)
  | RepeatBody (repeat_prompt : string) (message : PyVal).

(** What a view does with a request: a [JsonResponse] or an exception
    that leaves the view. *)
Inductive ViewResult :=
  | JsonResponse (body : Body) (status : Z)
  | ViewRaised (e : PyExn).

(** A call [f(k1=..., k2=...)] of a function whose parameters are all
    keyword-only and have the names [parameters]: a keyword that is no
    parameter is a [TypeError], raised before the body runs. *)
Definition call_with_keywords {A : Type} (parameters keywords : list string)
    (result : A) : outcome A :=
  if forallb (λ k, bool_decide (k ∈ parameters)) keywords
  then Returned result else Raised TypeError.

Definition finalize_followups_parameters : list string :=
  ["topic"; "user"; "question"; "main_answer"; "followup_pairs"; "language"].

Definition REPEAT_MESSAGE : string :=
  "Sure, let me restate the last question so we stay on the same page.".

(** An argument that the flow functions declare as [int | None]: the
    null and the integers; [None] for any other value, whose way through
    the tables is not embedded. *)
Definition declared_int (v : PyVal) : option (option Z) :=
  match v with
  | PNone => Some None
  | PInt z => Some (Some z)
  | _ => None
  end.

(** The loop that saves the generated questions of session [session],
    the first of [questions] at index [idx]. *)
Fixpoint save_questions (st : Store) (session idx : Z) (questions : list string) : Store :=
  match questions with
  | [] => st
  | question_text :: rest =>
      save_questions (question_get_or_create st (session, idx) question_text)
        session (idx + 1) rest
  end.

Section Requests.

Variable fl : Q → Q.
Variable int_of_str : string → option Z.
Variable float_str : Q → string.
(** [str(v)] for a value that is no [str]. *)
Variable str_of_object : PyVal → string.
(** The text a [CharField] stores for a value; [None] when the table
    refuses the row. *)
Variable db_text : PyVal → option string.

(** [str(v)] *)
Definition py_str (v : PyVal) : string :=
  match v with
  | PStr s => s
  | _ => str_of_object v
  end.

Definition _parse_request_body (body : option PyVal) : checked (list (string * PyVal)) :=
  match body with
  | None => ValidationError "Request body must be valid JSON."
  | Some (PDict payload) => Accepted payload
  | Some _ => ValidationError "Root payload must be a JSON object."
  end.

Definition _require_fields (payload : list (string * PyVal)) (fields : list string)
  : checked unit :=
  let missing := filter (λ field, py_truthy (payload_get field payload) = false) fields in
  match missing with
  | [] => Accepted tt
  | _ => ValidationError ("Missing required fields: " +:+ py_join ", " missing)
  end.

Definition _normalize_main_answer (payload : list (string * PyVal)) : checked string :=
  let answer := py_or (payload_get "main_answer" payload) (payload_get "answer" payload) in
  if py_truthy answer then Accepted (py_str answer)
  else ValidationError "Field 'main_answer' (or alias 'answer') is required.".

(** The loop of [_normalize_followup_pairs] over the entries. *)
Fixpoint normalize_entries (entries : list PyVal) : checked (list FollowUpPair) :=
  match entries with
  | [] => Accepted []
  | entry :: rest =>
      match entry with
      | PDict members =>
          let question := payload_get "question" members in
          let answer := payload_get "answer" members in
          if negb (py_truthy question) || negb (py_truthy answer)
          then ValidationError "Follow-up entries need both question and answer."
          else
            match normalize_entries rest with
            | Accepted normalized =>
                Accepted ({| pair_question := py_str question;
                             pair_answer := py_str answer |} :: normalized)
            | ValidationError message => ValidationError message
            end
      | _ => ValidationError "Each follow-up entry must be an object."
      end
  end.

Definition _normalize_followup_pairs (payload : list (string * PyVal))
  : checked (list FollowUpPair) :=
  match payload_get "followup_pairs" payload with
  | PList entries => normalize_entries entries
  | _ => ValidationError "Field 'followup_pairs' must be a list."
  end.

Definition repeat_question_view (body : option PyVal) : ViewResult :=
  match _parse_request_body body with
  | ValidationError message => JsonResponse (ErrorBody message) 400
  | Accepted payload =>
      match _require_fields payload ["question"] with
      | ValidationError message => JsonResponse (ErrorBody message) 400
      | Accepted _ =>
          let question_text := py_strip (py_str (payload_get "question" payload)) in
          if String.eqb question_text EmptyString
          then JsonResponse (ErrorBody "Question cannot be blank.") 400
          else JsonResponse
                 (RepeatBody question_text
                    (payload_get_or "message_override" (PStr REPEAT_MESSAGE) payload))
                 200
      end
  end.

Definition finalize_followups_view (body : option PyVal) : ViewResult :=
  match _parse_request_body body with
  | ValidationError message => JsonResponse (ErrorBody message) 400
  | Accepted payload =>
      match _require_fields payload ["topic"; "user"; "question"] with
      | ValidationError message => JsonResponse (ErrorBody message) 400
      | Accepted _ =>
          match _normalize_main_answer payload with
          | ValidationError message => JsonResponse (ErrorBody message) 400
          | Accepted main_answer =>
              match _normalize_followup_pairs payload with
              | ValidationError message => JsonResponse (ErrorBody message) 400
              | Accepted followup_pairs =>
                  let language := payload_get_or "language" (PStr "en") payload in
                  let final_result :=
                    call_with_keywords finalize_followups_parameters
                      ["topic"; "user"; "question"; "main_answer"; "followup_pairs";
                       "language"; "answer_id"]
                      (finalize_followups fl
                         (py_str (payload_get "topic" payload))
                         (py_str (payload_get "user" payload))
                         (py_str (payload_get "question" payload))
                         main_answer followup_pairs (py_str language)) in
                  match final_result with
                  | Returned (final_score, feedback, evaluation) =>
                      JsonResponse (FinalBody final_score feedback evaluation) 200
                  | Raised e => ViewRaised e
                  end
              end
          end
      end
  end.

Definition generate_questions_view (st : Store) (body : option PyVal) (draw : list nat)
  : ViewResult * Store :=
  match _parse_request_body body with
  | ValidationError message => (JsonResponse (ErrorBody message) 400, st)
  | Accepted payload =>
      match _require_fields payload ["topic"] with
      | ValidationError message => (JsonResponse (ErrorBody message) 400, st)
      | Accepted _ =>
          let language := payload_get_or "language" (PStr "en") payload in
          let username :=
            payload_get_or "user" (payload_get_or "username" (PStr "anonymous") payload)
              payload in
          let raw_count := py_or (payload_get "count" payload) (PInt 10) in
          let counted :=
            match py_int int_of_str raw_count with
            | Returned count => Returned count
            | Raised TypeError | Raised ValueError => Returned 10%Z
            | Raised e => Raised e
            end in
          match counted with
          | Raised e => (ViewRaised e, st)
          | Returned count =>
              let topic := py_str (payload_get "topic" payload) in
              let questions := generate_question_set topic count (py_str language) draw in
              (* Save questions to database; any failure is passed over *)
              let st' :=
                match db_text username with
                | Some name =>
                    match session_get_or_create st name topic (py_str language) with
                    | Some (session, st_s) => save_questions st_s session 0 questions
                    | None => st
                    end
                | None => st
                end in
              (JsonResponse (QuestionsBody topic language (length questions) questions) 200,
               st')
          end
      end
  end.


(** [None] when [answer_id] is outside [declared_int]. *)
Definition continue_followups_view (st : Store) (body : option PyVal) (draw : nat)
  : option (ViewResult * Store) :=
  match _parse_request_body body with
  | ValidationError message => Some (JsonResponse (ErrorBody message) 400, st)
  | Accepted payload =>
      match _require_fields payload ["topic"; "user"; "question"] with
      | ValidationError message => Some (JsonResponse (ErrorBody message) 400, st)
      | Accepted _ =>
          match _normalize_main_answer payload with
          | ValidationError message => Some (JsonResponse (ErrorBody message) 400, st)
          | Accepted main_answer =>
              match _normalize_followup_pairs payload with
              | ValidationError message =>
                  Some (JsonResponse (ErrorBody message) 400, st)
              | Accepted followup_pairs =>
                  let language := payload_get_or "language" (PStr "en") payload in
                  let target_followups := payload_get "target_followups" payload in
                  match declared_int (payload_get "answer_id" payload) with
                  | None => None
                  | Some answer_id =>
                      let '(result, st') :=
                        continue_followups fl int_of_str float_str st
                          (py_str (payload_get "topic" payload))
                          (py_str (payload_get "user" payload))
                          (py_str (payload_get "question" payload))
                          main_answer followup_pairs (py_str language)
                          target_followups answer_id draw in
                      match result with
                      | Returned flow_result =>
                          Some (JsonResponse (FlowBody flow_result) 200, st')
                      | Raised e => Some (ViewRaised e, st')
                      end
                  end
              end
          end
      end
  end.

End Requests.

(** The follow-up indices of every answer have no gap: with an index its
    predecessor is there. *)
Definition gapless (st : Store) : Prop :=
  ∀ id idx, is_Some (followups st !! (id, S idx)) → is_Some (followups st !! (id, idx)).

(** The tables after one initial submission, and the answer row it made. *)
Definition sample_store : Store :=
  (handle_question_flow empty_store "algorithms" "bob" "Explain recursion in detail"
     "It is a function calling itself." "en" None 0).2.

Definition sample_answer : Answer :=
  {| a_question := (1, 0)%Z; a_answer_text := "It is a function calling itself.";
     a_initial_score := None; a_final_score := None; a_average_score := None;
     a_initial_feedback := EmptyString; a_final_feedback := EmptyString;
     a_target_followups := 8; a_completed_followups := 0 |}.

(** * Properties *)

Local Open Scope nat_scope.

(** ** Text primitives *)

Lemma py_split_nil_blank (s : string) : py_split s = [] ↔ blank s = true.
Proof.
  induction s as [|c rest IH]; simpl; [done|].
  destruct (is_space c) eqn:Hc; simpl; [exact IH|].
  split; [|done].
  destruct rest as [|d rest']; [done|].
  destruct (is_space d); [done|].
  destruct (py_split (String d rest')); done.
Qed.

Lemma py_split_cons (c d : ascii) (rest : string) :
  py_split (String c (String d rest)) =
  if is_space c then py_split (String d rest)
  else if is_space d then String c EmptyString :: py_split (String d rest)
  else match py_split (String d rest) with
       | w :: ws => String c w :: ws
       | [] => [String c EmptyString]
       end.
Proof. reflexivity. Qed.

(** [py_split] is the split at blanks: a word without blanks is its own
    only token, and a blank separates the tokens on its two sides. *)
Lemma py_split_word (w : string) :
  w ≠ EmptyString → blank_free w = true → py_split w = [w].
Proof.
  induction w as [|c rest IH]; [done|]. intros _ [Hc Hrest]%andb_prop.
  apply negb_true_iff in Hc.
  destruct rest as [|d rest']; [simpl; by rewrite Hc|].
  rewrite py_split_cons, Hc.
  pose proof Hrest as [Hd _]%andb_prop. apply negb_true_iff in Hd. rewrite Hd.
  by rewrite IH.
Qed.

Lemma py_split_at_blank (a b : string) (c : ascii) :
  is_space c = true →
  py_split (a +:+ String c b) = (py_split a ++ py_split b)%list.
Proof.
  intros Hc. induction a as [|x a IH]; [simpl; by rewrite Hc|].
  destruct a as [|d a'].
  - simpl. rewrite Hc. by destruct (is_space x).
  - change ((String x (String d a')) +:+ String c b)
      with (String x (String d (a' +:+ String c b))).
    rewrite !py_split_cons.
    change (String d (a' +:+ String c b)) with (String d a' +:+ String c b).
    rewrite IH.
    destruct (is_space x); [done|]. destruct (is_space d) eqn:Hd; [done|].
    destruct (py_split (String d a')) as [|w ws] eqn:Hs; [|done].
    apply py_split_nil_blank in Hs. simpl in Hs. by rewrite Hd in Hs.
Qed.

Lemma py_lstrip_split (s : string) : py_split (py_lstrip s) = py_split s.
Proof.
  induction s as [|c rest IH]; simpl; [done|].
  destruct (is_space c) eqn:Hc; [exact IH|].
  simpl. by rewrite Hc.
Qed.

Lemma py_rstrip_nil_blank (s : string) : py_rstrip s = EmptyString ↔ blank s = true.
Proof.
  induction s as [|c rest IH]; simpl; [done|].
  destruct (py_rstrip rest) eqn:Hr.
  - destruct (is_space c); simpl; [|done].
    split; [intros _; by apply IH|done].
  - split; [done|]. intros [_ Hb]%andb_prop. by apply IH in Hb.
Qed.

Lemma py_rstrip_head (d : ascii) (rest : string) :
  py_rstrip (String d rest) = EmptyString ∨
  ∃ kept, py_rstrip (String d rest) = String d kept.
Proof.
  simpl. destruct (py_rstrip rest).
  - destruct (is_space d); eauto.
  - eauto.
Qed.

Lemma py_rstrip_split (s : string) : py_split (py_rstrip s) = py_split s.
Proof.
  induction s as [|c rest IH]; [done|].
  change (py_rstrip (String c rest)) with
    (match py_rstrip rest with
     | EmptyString => if is_space c then EmptyString else String c EmptyString
     | kept => String c kept
     end).
  destruct (py_rstrip rest) as [|k kept] eqn:Hr.
  - assert (Hb : blank rest = true) by by apply py_rstrip_nil_blank.
    assert (Hn : py_split rest = []) by by apply py_split_nil_blank.
    destruct (is_space c) eqn:Hc; simpl; rewrite Hc; [by rewrite Hn|].
    destruct rest as [|d rest']; [done|].
    simpl in Hb. apply andb_prop in Hb as [Hd _]. by rewrite Hd, Hn.
  - destruct rest as [|d rest']; [done|].
    destruct (py_rstrip_head d rest') as [He|[kept' He]]; [congruence|].
    rewrite Hr in He. injection He as -> ->.
    rewrite (py_split_cons c d kept'), (py_split_cons c d rest').
    by rewrite IH.
Qed.

Lemma py_strip_split (s : string) : py_split (py_strip s) = py_split s.
Proof. unfold py_strip. by rewrite py_rstrip_split, py_lstrip_split. Qed.

Example py_split_words : py_split "  hello   world " = ["hello"; "world"].
Proof. reflexivity. Qed.

Example py_strip_blanks : py_strip "  It is  a test.  " = "It is  a test.".
Proof. reflexivity. Qed.

Example py_lower_mixed : py_lower "Explain RECURSION in Detail?" = "explain recursion in detail?".
Proof. reflexivity. Qed.

(** The trimmed word count is 0 exactly for the empty and the
    whitespace-only answers. *)
Lemma word_count_zero_blank (answer_text : string) :
  word_count answer_text = 0 ↔ blank answer_text = true.
Proof.
  unfold word_count. rewrite py_strip_split, length_zero_iff_nil.
  apply py_split_nil_blank.
Qed.

(** ** The scorers *)



(** ** The follow-up target *)

Section Target.
Variable int_of_str : string → option Z.

(** Whatever [int] makes of the target, the clamp brings it into [1, 8]. *)
Lemma _normalize_followup_target_range (target : PyVal) (n : Z) :
  _normalize_followup_target int_of_str target = Returned n → (1 ≤ n ≤ 8)%Z.
Proof.
  unfold _normalize_followup_target, MIN_FOLLOW_UP_COUNT, FOLLOW_UP_COUNT.
  destruct target as [|b|z|[q|neg|]|s|items|items]; simpl;
    try destruct (int_of_str s); intros [= <-]; lia.
Qed.

(** Every target but an infinite float has a normalized value. *)
Lemma plan_target_returns (target_followups : PyVal) :
  (∀ negative, target_followups ≠ PFloat (FInf negative)) →
  ∃ n, plan_target int_of_str target_followups = Returned n ∧ (1 ≤ n ≤ 8)%Z.
Proof.
  intros Hfin.
  assert (∃ n, plan_target int_of_str target_followups = Returned n) as [n Hn].
  { unfold plan_target, py_or.
    destruct target_followups as [|b|z|[q|neg|]|s|items|items]; simpl.
    - eauto.
    - destruct b; simpl; eauto.
    - destruct (z =? 0)%Z; simpl; eauto.
    - destruct (Qeq_bool q 0); simpl; eauto.
    - by destruct (Hfin neg).
    - eauto.
    - destruct (String.eqb s ""); simpl; [eauto|]. destruct (int_of_str s); eauto.
    - destruct items; simpl; eauto.
    - destruct items; simpl; eauto. }
  exists n. split; [done|]. by apply _normalize_followup_target_range in Hn.
Qed.

(** The values the specification lists. *)
Lemma plan_target_none : plan_target int_of_str PNone = Returned 8%Z.
Proof. reflexivity. Qed.

Lemma plan_target_not_a_number (s : string) :
  int_of_str s = None → plan_target int_of_str (PStr s) = Returned 8%Z.
Proof.
  intros Hs. unfold plan_target, py_or. simpl.
  destruct (String.eqb s ""); simpl; [done|]. by rewrite Hs.
Qed.

Lemma plan_target_int (z : Z) :
  plan_target int_of_str (PInt z) =
  Returned (if (z =? 0)%Z then 8 else Z.max 1 (Z.min 8 z))%Z.
Proof. unfold plan_target, py_or. simpl. by destruct (z =? 0)%Z. Qed.

(** C3: the claim fails on an infinite float, for which [int] raises
    [OverflowError], an exception the normalization does not catch: the
    continuation flow has no normalized target there. *)
Theorem plan_target_infinity_raises (negative : bool) :
  plan_target int_of_str (PFloat (FInf negative)) = Raised OverflowError.
Proof. reflexivity. Qed.

End Target.

(** ** The continuation flow *)

Section Continuation.
Variable fl : Q → Q.
Variable int_of_str : string → option Z.
Variable float_str : Q → string.

(** With an infinite float for target the call raises, whatever else it
    is given, and leaves the tables as they were. *)
Lemma continue_followups_infinite_target (st : Store)
    (topic user question main_answer language : string)
    (followup_pairs : list FollowUpPair) (negative : bool)
    (answer_id : option Z) (draw : nat) :
  continue_followups fl int_of_str float_str st topic user question main_answer
    followup_pairs language (PFloat (FInf negative)) answer_id draw
  = (Raised OverflowError, st).
Proof. reflexivity. Qed.



End Continuation.

Example plan_target_listed_values :
  plan_target decimal_int
    <$> [PInt 0; PInt (-1); PInt 20; PStr "abc"; PNone; PInt 5; PStr " 5 ";
         PFloat FNan; PBool true; PList []]
  = Returned <$> [8; 1; 8; 8; 8; 5; 5; 8; 1; 8]%Z.
Proof. reflexivity. Qed.




(** ** The tables *)

Lemma session_get_or_create_tables (st st' : Store) (user topic language : string) (i : Z) :
  session_get_or_create st user topic language = Some (i, st') →
  answers st' = answers st ∧ followups st' = followups st.
Proof.
  unfold session_get_or_create.
  destruct (matching_ids _ _ _) as [|j [|k ids]]; intros [= <- <-]; done.
Qed.

Lemma question_get_or_create_tables (st : Store) (key : Z * Z) (text : string) :
  answers (question_get_or_create st key text) = answers st ∧
  followups (question_get_or_create st key text) = followups st.
Proof. unfold question_get_or_create. by destruct (questions st !! key). Qed.

Lemma answer_get_bound (st : Store) (id : Z) (a : Answer) :
  answer_get st id = Some a → (1 ≤ id ≤ Z.of_nat (length (answers st)))%Z.
Proof.
  unfold answer_get. destruct (1 <=? id)%Z eqn:Hid; [|done].
  apply Z.leb_le in Hid. intros Hl%lookup_lt_Some. lia.
Qed.

(** A created answer is new, carries no score and leaves the others. *)
Lemma answer_get_create (st : Store) (key : Z * Z) (text : string) (target id : Z)
    (a : Answer) :
  answer_get (answer_create st key text target).2 id = Some a →
  answer_get st id = Some a ∨ unscored a.
Proof.
  unfold answer_get, answer_create. simpl.
  destruct (1 <=? id)%Z eqn:Hid; [|done].
  intros [H|[_ H]]%lookup_app_Some; [by left|right].
  destruct (Z.to_nat (id - 1) - length (answers st)); [|done].
  injection H as <-. done.
Qed.

Lemma answer_get_save (st : Store) (id id' : Z) (row a : Answer) :
  answer_get st id = Some a →
  answer_get (answer_save st id row) id' =
  if decide (id' = id) then Some row else answer_get st id'.
Proof.
  intros Ha. pose proof (answer_get_bound _ _ _ Ha) as Hb.
  unfold answer_get in *. simpl.
  destruct (1 <=? id)%Z eqn:Hid; [|done].
  destruct (decide (id' = id)) as [->|Hne].
  - rewrite Hid. apply list_lookup_insert_eq. by eapply lookup_lt_Some.
  - destruct (1 <=? id')%Z eqn:Hid'; [|done].
    apply Z.leb_le in Hid, Hid'. apply list_lookup_insert_ne. lia.
Qed.

Lemma followup_get_or_create_lookup (st : Store) (key k : Z * nat)
    (question_text answer_text : string) (f : FollowUp) :
  followups (followup_get_or_create st key question_text answer_text).2 !! k = Some f →
  followups st !! k = Some f ∨
  (k = key ∧ followups st !! key = None ∧ fu_score f = None).
Proof.
  unfold followup_get_or_create.
  destruct (followups st !! key) eqn:Hk; simpl; [by left|].
  rewrite lookup_insert. case_decide as Heq; [|by left].
  intros [= <-]. right. by subst.
Qed.

Lemma followup_get_or_create_keeps (st : Store) (key k : Z * nat)
    (question_text answer_text : string) (f : FollowUp) :
  followups st !! k = Some f →
  followups (followup_get_or_create st key question_text answer_text).2 !! k = Some f.
Proof.
  intros Hf. unfold followup_get_or_create.
  destruct (followups st !! key) eqn:Hk; simpl; [done|].
  rewrite lookup_insert_ne; [done|]. congruence.
Qed.

Lemma followup_get_or_create_answers (st : Store) (key : Z * nat)
    (question_text answer_text : string) :
  answers (followup_get_or_create st key question_text answer_text).2 = answers st.
Proof. unfold followup_get_or_create. by destruct (followups st !! key). Qed.

(** ** The initial submission *)

(** What [handle_question_flow] does to the tables: the rows it adds
    carry no score, and the rows that were there stay as they are. *)
Lemma handle_question_flow_tables (st : Store)
    (topic user question main_answer language : string)
    (question_index : option Z) (draw : nat) :
  let st' :=
    (handle_question_flow st topic user question main_answer language question_index
       draw).2 in
  (∀ id a, answer_get st' id = Some a → answer_get st id = Some a ∨ unscored a) ∧
  (∀ key f, followups st' !! key = Some f →
            followups st !! key = Some f ∨ (fu_score f = None ∧ key.2 = 0)) ∧
  (∀ key f, followups st !! key = Some f → followups st' !! key = Some f).
Proof.
  unfold handle_question_flow.
  destruct (session_get_or_create st user topic language) as [[session st_s]|] eqn:Hs;
    [|cbv zeta; simpl; eauto].
  apply session_get_or_create_tables in Hs as [Hsa Hsf].
  set (key := (session, default 0%Z question_index)).
  pose proof (question_get_or_create_tables st_s key question) as [Hqa Hqf].
  set (st_q := question_get_or_create st_s key question) in *.
  pose proof (answer_get_create st_q key main_answer FOLLOW_UP_COUNT) as Hcreate.
  destruct (answer_create st_q key main_answer FOLLOW_UP_COUNT) as [id st_a] eqn:Ha.
  assert (Hfa : followups st_a = followups st).
  { unfold answer_create in Ha. injection Ha as _ <-. simpl. congruence. }
  assert (Hold : ∀ i a, answer_get st_a i = Some a → answer_get st i = Some a ∨ unscored a).
  { intros i a Hi. destruct (Hcreate i a Hi) as [Hi'|Hi']; [left|by right].
    unfold answer_get in *. by rewrite <- Hsa, <- Hqa. }
  cbv zeta. simpl.
  assert (Hsame : (∀ i a, answer_get st_a i = Some a →
                          answer_get st i = Some a ∨ unscored a) ∧
                  (∀ k f, followups st_a !! k = Some f →
                          followups st !! k = Some f ∨ (fu_score f = None ∧ k.2 = 0)) ∧
                  (∀ k f, followups st !! k = Some f → followups st_a !! k = Some f)).
  { split; [exact Hold|]. rewrite Hfa. eauto. }
  destruct (id =? 0)%Z; [exact Hsame|].
  destruct (answer_get st_a id) as [row|]; [|exact Hsame].
  split; [|split].
  - intros i a. unfold answer_get. rewrite followup_get_or_create_answers.
    apply Hold.
  - intros k f [Hk|(-> & _ & Hk)]%followup_get_or_create_lookup; [left|by right].
    by rewrite <- Hfa.
  - intros k f Hk. apply followup_get_or_create_keeps. by rewrite Hfa.
Qed.

(** C5: for every input, [handle_question_flow] answers with
    [needs_followups] true, the single follow-up prompt generated for
    [asked_count = 0], [followup_index] 1 and [max_followups] 8, and it
    scores nothing: every answer and follow-up row it adds or changes
    carries no score. *)
Theorem initial_submission_asks_first_followup (st : Store)
    (topic user question main_answer language : string)
    (question_index : option Z) (draw : nat) :
  let result :=
    handle_question_flow st topic user question main_answer language question_index
      draw in
  (∃ p,
      result.1 = AskNext p ∧
      p_needs_followups p = true ∧
      p_follow_ups p =
        [generate_next_follow_up_question topic user question main_answer language
           0 draw] ∧
      p_followup_index p = 1%Z ∧
      p_max_followups p = 8%Z) ∧
  needs_followups result.1 = true ∧
  (∀ id a, answer_get result.2 id = Some a → answer_get st id = Some a ∨ unscored a) ∧
  (∀ key f, followups result.2 !! key = Some f →
            followups st !! key = Some f ∨ fu_score f = None).
Proof.
  cbv zeta.
  pose proof (handle_question_flow_tables st topic user question main_answer language
                question_index draw) as (Ha & Hf & _).
  cbv zeta in Ha, Hf.
  split; [|split; [|split]].
  - unfold handle_question_flow.
    destruct (session_get_or_create st user topic language) as [[session st_s]|];
      [destruct (answer_create _ _ _ _)|]; simpl; eexists; (split; [reflexivity|done]).
  - unfold handle_question_flow.
    destruct (session_get_or_create st user topic language) as [[session st_s]|];
      [destruct (answer_create _ _ _ _)|]; done.
  - exact Ha.
  - intros key f Hk. destruct (Hf key f Hk) as [?|[? _]]; eauto.
Qed.

(** ** Saving and scoring the follow-ups *)

Lemma save_followups_answers (st : Store) (id : Z) (idx : nat) (pairs : list FollowUpPair) :
  answers (save_followups st id idx pairs) = answers st.
Proof.
  revert st idx. induction pairs as [|turn rest IH]; intros st idx; simpl; [done|].
  unfold followup_get_or_create.
  destruct (followups st !! (id, idx)); simpl; by rewrite IH.
Qed.

(** A saved row keeps the score it had. *)
Lemma save_followups_keeps (st : Store) (id : Z) (idx : nat) (pairs : list FollowUpPair)
    (k : Z * nat) (f0 : FollowUp) :
  followups st !! k = Some f0 →
  ∃ f, followups (save_followups st id idx pairs) !! k = Some f ∧
       fu_score f = fu_score f0.
Proof.
  revert st idx f0. induction pairs as [|turn rest IH]; intros st idx f0 Hk; simpl; [eauto|].
  unfold followup_get_or_create.
  destruct (followups st !! (id, idx)) as [row|] eqn:Hrow; simpl.
  - destruct (decide (k = (id, idx))) as [->|Hne].
    + assert (row = f0) as -> by congruence.
      edestruct (IH (followup_put st (id, idx)
                   {| fu_question_text := pair_question turn;
                      fu_answer_text := pair_answer turn;
                      fu_score := fu_score f0; fu_feedback := fu_feedback f0 |})
                 (S idx)) as (f & Hf & Hs).
      { simpl. apply lookup_insert_eq. }
      exists f. split; [exact Hf|]. by rewrite Hs.
    + apply IH. simpl. by rewrite lookup_insert_ne.
  - apply IH. simpl. rewrite lookup_insert_ne; [done|]. congruence.
Qed.

(** The rows the loop creates are those of the supplied indices. *)
Lemma save_followups_new (st : Store) (id : Z) (idx : nat) (pairs : list FollowUpPair)
    (k : Z * nat) (f : FollowUp) :
  followups (save_followups st id idx pairs) !! k = Some f →
  followups st !! k = None →
  ∃ j, k = (id, j) ∧ idx ≤ j < idx + length pairs.
Proof.
  revert st idx. induction pairs as [|turn rest IH]; intros st idx Hk Hnone; simpl in *;
    [congruence|].
  unfold followup_get_or_create in Hk.
  destruct (followups st !! (id, idx)) as [row|] eqn:Hrow; simpl in Hk.
  - destruct (IH _ _ Hk) as (j & -> & Hj).
    { simpl. rewrite lookup_insert_ne; [done|]. congruence. }
    exists j. split; [done|lia].
  - destruct (decide (k = (id, idx))) as [->|Hne]; [exists idx; split; [done|lia]|].
    destruct (IH _ _ Hk) as (j & -> & Hj).
    { simpl. by rewrite lookup_insert_ne. }
    exists j. split; [done|lia].
Qed.

(** Every supplied index has its row once the loop is through. *)
Lemma save_followups_all (st : Store) (id : Z) (idx : nat) (pairs : list FollowUpPair)
    (j : nat) :
  idx ≤ j < idx + length pairs →
  is_Some (followups (save_followups st id idx pairs) !! (id, j)).
Proof.
  revert st idx. induction pairs as [|turn rest IH]; intros st idx Hj; simpl in *; [lia|].
  unfold followup_get_or_create.
  destruct (decide (j = idx)) as [->|Hne].
  - destruct (followups st !! (id, idx)) as [row|] eqn:Hrow; simpl;
      edestruct (save_followups_keeps) as (f & Hf & _);
      [| rewrite Hf; eauto | | rewrite Hf; eauto]; simpl; apply lookup_insert_eq.
  - destruct (followups st !! (id, idx)) as [row|]; simpl; apply IH; lia.
Qed.

Lemma score_followups_answers (st : Store) (id : Z) (idx : nat)
    (evaluations : list FollowupEvaluation) :
  answers (score_followups st id idx evaluations) = answers st.
Proof.
  revert st idx. induction evaluations as [|ev rest IH]; intros st idx; simpl; [done|].
  destruct (followups st !! (id, idx)); simpl; [by rewrite IH|done].
Qed.

(** The scoring loop touches the rows of answer [id] from [idx] on only. *)
Lemma score_followups_other (st : Store) (id : Z) (idx : nat)
    (evaluations : list FollowupEvaluation) (k : Z * nat) :
  (∀ j, idx ≤ j < idx + length evaluations → k ≠ (id, j)) →
  followups (score_followups st id idx evaluations) !! k = followups st !! k.
Proof.
  revert st idx. induction evaluations as [|ev rest IH]; intros st idx Hk; simpl in *;
    [done|].
  destruct (followups st !! (id, idx)) as [row|]; [|done].
  rewrite IH; [|intros j Hj; apply Hk; lia].
  simpl. apply lookup_insert_ne. intros <-. apply (Hk idx); [lia|done].
Qed.

(** When the rows are there, the loop scores every one of them. *)
Lemma score_followups_scores (st : Store) (id : Z) (idx : nat)
    (evaluations : list FollowupEvaluation) (j : nat) :
  (∀ i, idx ≤ i < idx + length evaluations → is_Some (followups st !! (id, i))) →
  idx ≤ j < idx + length evaluations →
  ∃ f, followups (score_followups st id idx evaluations) !! (id, j) = Some f ∧
       is_Some (fu_score f).
Proof.
  revert st idx. induction evaluations as [|ev rest IH]; intros st idx Hall Hj;
    simpl in *; [lia|].
  destruct (Hall idx) as [row Hrow]; [lia|]. rewrite Hrow.
  destruct (decide (j = idx)) as [->|Hne].
  - rewrite score_followups_other; [|intros i Hi [= ->]; lia].
    simpl. rewrite lookup_insert_eq. eauto.
  - apply IH; [|lia].
    intros i Hi. simpl. rewrite lookup_insert_ne; [|intros [= ->]; lia].
    apply Hall. lia.
Qed.

(** A row found after the saving loop was there with the same score, or
    is one of the supplied indices. *)
Lemma save_followups_lookup (st : Store) (id : Z) (pairs : list FollowUpPair)
    (k : Z * nat) (f : FollowUp) :
  followups (save_followups st id 0 pairs) !! k = Some f →
  (∃ f0, followups st !! k = Some f0 ∧ fu_score f = fu_score f0) ∨
  (∃ j, k = (id, j) ∧ j < length pairs).
Proof.
  intros Hk. destruct (followups st !! k) as [f0|] eqn:Hst.
  - left. destruct (save_followups_keeps st id 0 pairs k f0 Hst) as (f' & Hf' & Hs).
    exists f0. split; [done|]. congruence.
  - right. destruct (save_followups_new st id 0 pairs k f Hk Hst) as (j & -> & Hj).
    exists j. split; [done|lia].
Qed.

(** ** The invariant of the flow *)

Lemma flow_invariant_all_or_nothing (st : Store) :
  flow_invariant st → all_or_nothing st.
Proof.
  intros [Hhigh Hlow] id a idx f Ha Hfin Hf.
  destruct (decide (8 ≤ idx)) as [Hidx|Hidx]; [by eapply Hhigh|].
  destruct (Hlow id a idx Ha Hfin) as (f' & Hf' & Hs); [lia|]. congruence.
Qed.

Lemma flow_invariant_empty : flow_invariant empty_store.
Proof.
  split.
  - intros id idx f Hf. simpl in Hf. by rewrite lookup_empty in Hf.
  - intros id a idx Ha. unfold answer_get in Ha. simpl in Ha.
    by destruct (1 <=? id)%Z.
Qed.

Lemma handle_question_flow_invariant (st : Store)
    (topic user question main_answer language : string)
    (question_index : option Z) (draw : nat) :
  flow_invariant st →
  flow_invariant
    (handle_question_flow st topic user question main_answer language question_index
       draw).2.
Proof.
  intros [Hhigh Hlow].
  pose proof (handle_question_flow_tables st topic user question main_answer language
                question_index draw) as (Ha & Hf & Hkeep).
  cbv zeta in Ha, Hf, Hkeep. split.
  - intros id idx f Hk Hidx.
    destruct (Hf _ _ Hk) as [Hold|[_ Hzero]]; [by eapply Hhigh|]. simpl in Hzero. lia.
  - intros id a idx Hid Hfin Hidx.
    destruct (Ha _ _ Hid) as [Hold|(_ & Hnone & _)].
    + destruct (Hlow id a idx Hold Hfin Hidx) as (f & Hk & Hs). eauto.
    + rewrite Hnone in Hfin. by destruct Hfin.
Qed.

Section Invariant.
Variable fl : Q → Q.
Variable int_of_str : string → option Z.
Variable float_str : Q → string.

Lemma continue_followups_invariant (st : Store)
    (topic user question main_answer language : string)
    (followup_pairs : list FollowUpPair) (target_followups : PyVal)
    (answer_id : option Z) (draw : nat) :
  flow_invariant st →
  flow_invariant
    (continue_followups fl int_of_str float_str st topic user question main_answer
       followup_pairs language target_followups answer_id draw).2.
Proof.
  intros Hinv. pose proof Hinv as [Hhigh Hlow]. unfold continue_followups.
  destruct (plan_target int_of_str target_followups) as [clamped|e]; [|done].
  destruct (id_truthy answer_id) as [id|];
    [|by destruct (FOLLOW_UP_COUNT <=? _)%Z].
  destruct (answer_get st id) as [a|] eqn:Ha;
    [|by destruct (FOLLOW_UP_COUNT <=? _)%Z; simpl; rewrite Ha].
  set (n := length followup_pairs).
  set (sf := save_followups st id 0 followup_pairs).
  set (a1 := {| a_question := a_question a; a_answer_text := a_answer_text a;
                a_initial_score := a_initial_score a;
                a_final_score := a_final_score a;
                a_average_score := a_average_score a;
                a_initial_feedback := a_initial_feedback a;
                a_final_feedback := a_final_feedback a;
                a_target_followups := a_target_followups a;
                a_completed_followups := Z.of_nat n |}).
  assert (Hsfa : answer_get sf id = Some a).
  { unfold answer_get, sf. by rewrite save_followups_answers. }
  assert (Hget1 : ∀ id', answer_get (answer_save sf id a1) id' =
                         if decide (id' = id) then Some a1 else answer_get st id').
  { intros id'. rewrite (answer_get_save sf id id' a1 a Hsfa).
    case_decide; [done|]. unfold answer_get, sf. by rewrite save_followups_answers. }
  pose proof (Hget1 id) as Hid1. rewrite decide_True in Hid1 by done.
  (* the rows of [sf] that have a score from before *)
  assert (Hkept : ∀ id' idx f0, followups st !! (id', idx) = Some f0 →
                    is_Some (fu_score f0) →
                    ∃ f, followups sf !! (id', idx) = Some f ∧ is_Some (fu_score f)).
  { intros id' idx f0 Hk Hs.
    destruct (save_followups_keeps st id 0 followup_pairs _ _ Hk) as (f & Hf & Hsc).
    exists f. split; [done|]. by rewrite Hsc. }
  unfold FOLLOW_UP_COUNT.
  destruct (8 <=? Z.of_nat n)%Z eqn:Hfin; simpl; rewrite Hid1.
  - (* finalize *)
    apply Z.leb_le in Hfin.
    set (a2 := {| a_question := a_question a1 |}).
    set (evs := evaluate_pair fl language <$> followup_pairs).
    assert (Hlen : length evs = n) by apply length_fmap.
    set (sv := answer_save (answer_save sf id a1) id a2).
    assert (Hall : ∀ i, 0 ≤ i < 0 + length evs → is_Some (followups sv !! (id, i))).
    { intros i Hi. simpl. apply save_followups_all. unfold n in Hlen. lia. }
    split.
    + intros id' idx f Hk Hidx.
      destruct (decide (id' = id ∧ idx < n)) as [[-> Hlt]|Hout].
      * destruct (score_followups_scores sv id 0 evs idx Hall) as (f' & Hf' & Hs);
          [lia|]. congruence.
      * rewrite score_followups_other in Hk
          by (intros j Hj [= -> ->]; apply Hout; split; [done|lia]).
        simpl in Hk.
        destruct (save_followups_lookup _ _ _ _ _ Hk) as [(f0 & Hf0 & Hs)|(j & [= -> ->] & Hj)].
        -- rewrite Hs. by eapply Hhigh.
        -- destruct Hout. by split.
    + intros id' b idx Hb Hbfin Hidx.
      unfold answer_get in Hb. rewrite score_followups_answers in Hb.
      fold (answer_get sv id') in Hb.
      destruct (decide (id' = id)) as [->|Hne].
      * apply score_followups_scores; [exact Hall|lia].
      * unfold sv in Hb.
        rewrite (answer_get_save _ id id' a2 a1 Hid1), decide_False in Hb by done.
        rewrite Hget1, decide_False in Hb by done.
        destruct (Hlow id' b idx Hb Hbfin Hidx) as (f0 & Hf0 & Hs0).
        destruct (Hkept _ _ _ Hf0 Hs0) as (f & Hf & Hs).
        exists f. split; [|done].
        rewrite score_followups_other by (intros j _ [= ? _]; done). done.
  - (* ask the next follow-up *)
    apply Z.leb_gt in Hfin.
    set (s1 := answer_save sf id a1).
    split.
    + intros id' idx f Hk Hidx.
      apply followup_get_or_create_lookup in Hk as [Hk|([= -> ->] & _)]; [|lia].
      simpl in Hk.
      destruct (save_followups_lookup _ _ _ _ _ Hk) as [(f0 & Hf0 & Hs)|(j & [= -> ->] & Hj)].
      * rewrite Hs. by eapply Hhigh.
      * unfold n in Hfin. lia.
    + intros id' b idx Hb Hbfin Hidx.
      unfold answer_get in Hb. rewrite followup_get_or_create_answers in Hb.
      fold (answer_get s1 id') in Hb. unfold s1 in Hb. rewrite Hget1 in Hb.
      assert (∃ b0, answer_get st id' = Some b0 ∧ is_Some (a_final_score b0))
        as (b0 & Hb0 & Hb0fin).
      { case_decide as Heq; [|eauto]. subst id'. injection Hb as <-. eauto. }
      destruct (Hlow id' b0 idx Hb0 Hb0fin Hidx) as (f0 & Hf0 & Hs0).
      destruct (Hkept _ _ _ Hf0 Hs0) as (f & Hf & Hs).
      exists f. split; [|done]. by apply followup_get_or_create_keeps.
Qed.

Lemma reachable_invariant (st : Store) :
  reachable fl int_of_str float_str st → flow_invariant st.
Proof.
  induction 1 as [|st ? ? ? ? ? ? ? _ IH|st ? ? ? ? ? ? ? ? ? _ IH].
  - apply flow_invariant_empty.
  - by apply handle_question_flow_invariant.
  - by apply continue_followups_invariant.
Qed.

(** C4: in every store the flow operations reach, no answer has its
    [final_score] set while one of its follow-ups has no score. *)
Theorem scoring_all_or_nothing (st : Store) :
  reachable fl int_of_str float_str st → all_or_nothing st.
Proof. intros Hr. by apply flow_invariant_all_or_nothing, reachable_invariant. Qed.

End Invariant.

Lemma scoring_all_or_nothing_witness :
  let st1 :=
    (handle_question_flow empty_store "algorithms" "bob" "Explain recursion in detail"
       "It is a function calling itself." "en" None 0).2 in
  let st2 :=
    (continue_followups fl_exact decimal_int tenths_str st1 "algorithms" "bob"
       "Explain recursion in detail" "It is a function calling itself."
       (replicate 8 sample_turn) "en" PNone (Some 1%Z) 0).2 in
  reachable fl_exact decimal_int tenths_str st2 ∧
  (∃ a, answer_get st2 1 = Some a ∧ is_Some (a_final_score a)) ∧
  all_or_nothing st2.
Proof.
  cbv zeta.
  assert (Hreach : reachable fl_exact decimal_int tenths_str
            (continue_followups fl_exact decimal_int tenths_str
               (handle_question_flow empty_store "algorithms" "bob"
                  "Explain recursion in detail" "It is a function calling itself."
                  "en" None 0).2
               "algorithms" "bob" "Explain recursion in detail"
               "It is a function calling itself." (replicate 8 sample_turn) "en"
               PNone (Some 1%Z) 0).2).
  { apply reach_continue, reach_initial, reach_empty. }
  split; [exact Hreach|]. split.
  - vm_compute. eexists. split; [reflexivity|]. by eexists.
  - exact (scoring_all_or_nothing fl_exact decimal_int tenths_str _ Hreach).
Defined.

(** ** The follow-up generator *)






(** ** The question generator *)

Lemma string_app_length (a b : string) :
  String.length (a +:+ b) = String.length a + String.length b.
Proof. induction a as [|c a IH]; simpl; [done|]. by rewrite IH. Qed.

Lemma string_app_inv_head (p a b : string) : p +:+ a = p +:+ b → a = b.
Proof. induction p as [|c p IH]; simpl; [done|]. intros [= H]. by apply IH. Qed.



(** Two texts that begin one and the same string: one begins the other. *)
Lemma starts_with_common (p1 p2 x y : string) :
  p1 +:+ x = p2 +:+ y → starts_with p1 p2 = true ∨ starts_with p2 p1 = true.
Proof.
  revert p2. induction p1 as [|c p1 IH]; intros p2; simpl; [by left|].
  destruct p2 as [|d p2]; simpl; [by right|].
  intros [= -> H]. rewrite Ascii.eqb_refl. simpl. by apply IH.
Qed.

Lemma separable_sound (a b : string * string) (topic : string) :
  separable a b = true →
  a.1 +:+ topic +:+ a.2 ≠ b.1 +:+ topic +:+ b.2.
Proof.
  destruct a as [p1 s1], b as [p2 s2]. unfold separable. simpl.
  intros [[Hlen|Hpre]%orb_prop|Heq]%orb_prop Hsame.
  - apply negb_true_iff, Nat.eqb_neq in Hlen. apply Hlen.
    apply (f_equal String.length) in Hsame.
    rewrite !string_app_length in Hsame. lia.
  - apply andb_prop in Hpre as [H12%negb_true_iff H21%negb_true_iff].
    destruct (starts_with_common _ _ _ _ Hsame); congruence.
  - apply andb_prop in Heq as [Hp%String.eqb_eq Hs%negb_true_iff].
    subst p2. apply String.eqb_neq in Hs. apply Hs.
    by apply string_app_inv_head, string_app_inv_head in Hsame.
Qed.

(** Every template of the pool is its two parts around one [{topic}]
    field, and formatting puts the topic in the place of the field. *)
Lemma all_templates_format :
  Forall (λ template,
            template = (parts_of template).1 +:+ "{topic}" +:+ (parts_of template).2 ∧
            ∀ topic, format_topic template topic
                     = (parts_of template).1 +:+ topic +:+ (parts_of template).2)
         all_templates.
Proof.
  unfold all_templates.
  repeat (apply Forall_cons; split;
          [split; [vm_compute; reflexivity|intros topic; vm_compute; reflexivity]|]).
  apply Forall_nil_2.
Qed.

Lemma templates_separable_true : templates_separable = true.
Proof. vm_compute. reflexivity. Qed.

Lemma nth_template_format (i : nat) (topic : string) :
  i < length all_templates →
  let template := nth i all_templates EmptyString in
  template ∈ all_templates ∧
  template = (parts_of template).1 +:+ "{topic}" +:+ (parts_of template).2 ∧
  format_topic template topic
    = (parts_of template).1 +:+ topic +:+ (parts_of template).2.
Proof.
  intros Hi. cbv zeta.
  destruct (lookup_lt_is_Some_2 all_templates i Hi) as [template Ht].
  rewrite (nth_lookup_Some _ _ EmptyString _ Ht).
  pose proof (proj1 (Forall_lookup _ _) all_templates_format i template Ht) as [H1 H2].
  split; [by eapply list_elem_of_lookup_2|]. split; [exact H1|apply H2].
Qed.

(** Two different templates of the pool give two different questions,
    whatever the topic. *)
Lemma format_topic_inj (i j : nat) (topic : string) :
  i < length all_templates → j < length all_templates →
  format_topic (nth i all_templates EmptyString) topic
    = format_topic (nth j all_templates EmptyString) topic →
  i = j.
Proof.
  intros Hi Hj Hsame.
  destruct (decide (i = j)) as [|Hne]; [done|exfalso].
  pose proof templates_separable_true as Hsep. unfold templates_separable in Hsep.
  cbv zeta in Hsep. rewrite forallb_forall in Hsep.
  specialize (Hsep i). rewrite forallb_forall in Hsep.
  specialize (Hsep ltac:(apply in_seq; lia) j ltac:(apply in_seq; lia)).
  apply orb_prop in Hsep as [Heq%Nat.eqb_eq|Hsep]; [done|].
  destruct (nth_template_format i topic Hi) as (_ & _ & Hfi).
  destruct (nth_template_format j topic Hj) as (_ & _ & Hfj).
  rewrite Hfi, Hfj in Hsame. by apply (separable_sound _ _ topic) in Hsep.
Qed.

(** C9: the count is clamped into [1, 10], and for every sample the
    generator can draw the result has exactly that many questions, no two
    of them equal, each a template of the pool with the topic in the
    place of its [{topic}] field. *)
Theorem question_set_distinct (topic language : string) (count : Z) (draw : list nat) :
  let safe_count := Z.max 1 (Z.min count 10) in
  sample_draw draw (length all_templates) (Z.to_nat safe_count) →
  let questions := generate_question_set topic count language draw in
  (1 ≤ safe_count ≤ 10)%Z ∧
  Z.of_nat (length questions) = safe_count ∧
  NoDup questions ∧
  Forall (λ q, ∃ before after,
                 before +:+ "{topic}" +:+ after ∈ all_templates ∧
                 q = before +:+ topic +:+ after) questions.
Proof.
  intros safe_count (Hnodup & Hlen & Hrange) questions.
  assert (Hsafe : (1 ≤ safe_count ≤ 10)%Z) by (unfold safe_count; lia).
  assert (Hq : questions =
               (λ i, format_topic (nth i all_templates EmptyString) topic) <$> draw).
  { unfold questions, generate_question_set, random_sample, QUESTION_COUNT.
    fold safe_count.
    replace (Z.min safe_count (Z.of_nat (length all_templates))) with safe_count
      by (simpl; lia).
    rewrite <- Hlen, firstn_all. by rewrite <- list_fmap_compose. }
  rewrite Forall_forall in Hrange.
  split; [exact Hsafe|]. split; [|split].
  - rewrite Hq, length_fmap, Hlen. lia.
  - rewrite Hq. apply NoDup_fmap_2_strong; [|exact Hnodup].
    intros i j Hi Hj. apply format_topic_inj; by apply Hrange.
  - rewrite Hq. apply Forall_fmap, Forall_forall. intros i Hi. simpl.
    destruct (nth_template_format i topic (Hrange i Hi)) as (Hin & Hparts & Hfmt).
    eexists _, _. split; [|exact Hfmt]. by rewrite <- Hparts.
Qed.

Lemma question_set_distinct_witness :
  sample_draw [45; 0; 7] (length all_templates) 3 ∧
  NoDup (generate_question_set "Graphs" 3 "en" [45; 0; 7]).
Proof.
  assert (Hdraw : sample_draw [45; 0; 7] (length all_templates) 3).
  { split; [|split].
    - repeat (apply NoDup_cons; split; [by intros ?%list_elem_of_In; simpl in *; lia|]).
      apply NoDup_nil_2.
    - reflexivity.
    - repeat (apply Forall_cons; split; [simpl; lia|]). apply Forall_nil_2. }
  split; [exact Hdraw|].
  exact (proj1 (proj2 (proj2 (question_set_distinct "Graphs" "en" 3 [45; 0; 7] Hdraw)))).
Defined.

(** ** The coverage penalty *)





(** In exact arithmetic the tiers are those of the share itself. *)
Lemma coverage_penalty_exact (question answer : string) :
  let n := Z.of_nat (size (question_terms question)) in
  let m := Z.of_nat (size (matched_terms question answer)) in
  _coverage_penalty fl_exact question answer =
  if (n =? 0)%Z then 0%Z
  else if (6 * n <=? 10 * m)%Z then 0%Z
  else if (3 * n <=? 10 * m)%Z then 1%Z
  else 2%Z.
Proof.
  cbv zeta. unfold _coverage_penalty, fl_exact.
  destruct (decide (size (question_terms question) = 0)) as [->|Hnz]; [done|].
  set (m := Z.of_nat (size (matched_terms question answer))).
  destruct (size (question_terms question)) as [|n]; [done|].
  assert (Hratio : ∀ a : Z,
            Qle_bool (a # 10) (inject_Z m / inject_Z (Z.of_nat (S n)))
            = (a * Z.of_nat (S n) <=? 10 * m)%Z).
  { intros a. change (Z.of_nat (S n)) with (Z.pos (Pos.of_succ_nat n)).
    unfold Qle_bool, Qdiv, Qmult, Qinv, inject_Z. cbn [Qnum Qden].
    apply eq_true_iff_eq. rewrite !Z.leb_le. rewrite Pos.mul_1_l. lia. }
  rewrite !Hratio.
  by destruct (Z.eqb_spec (Z.of_nat (S n)) 0) as [?|_]; [lia|].
Qed.

Example coverage_two_of_three :
  _coverage_penalty fl_exact "Explain recursion in detail" "Recursion is explained" = 0%Z.
Proof. vm_compute. reflexivity. Qed.

Example coverage_one_of_three :
  _coverage_penalty fl_exact "Explain recursion in detail" "Recursion is" = 1%Z.
Proof. vm_compute. reflexivity. Qed.

Example coverage_none_of_three :
  _coverage_penalty fl_exact "Explain recursion in detail" "It calls itself" = 2%Z.
Proof. vm_compute. reflexivity. Qed.

Example coverage_no_terms : _coverage_penalty fl_exact "a b c" "nothing" = 0%Z.
Proof. vm_compute. reflexivity. Qed.

(** ** Bounds of the scores *)

Lemma Qltb_lt (x y : Q) : Qltb x y = true ↔ (x < y)%Q.
Proof.
  unfold Qltb. rewrite negb_true_iff. split.
  - intros H. apply Qnot_le_lt. intros Hle. apply Qle_bool_iff in Hle. congruence.
  - intros H. apply not_true_is_false. intros Hle%Qle_bool_iff. by apply Qlt_not_le in H.
Qed.

Lemma Qltb_ge (x y : Q) : Qltb x y = false ↔ (y <= x)%Q.
Proof.
  unfold Qltb. rewrite negb_false_iff. apply Qle_bool_iff.
Qed.

Lemma py_min_le_l (a b : Q) : (py_min a b <= a)%Q.
Proof.
  unfold py_min. destruct (Qltb b a) eqn:H; [|lra].
  apply Qltb_lt in H. lra.
Qed.

Lemma py_min_le (a b c : Q) : (b <= c)%Q → (c <= a)%Q → (py_min a b <= c)%Q.
Proof.
  intros Hb Hc. unfold py_min. destruct (Qltb b a) eqn:H; [done|].
  apply Qltb_ge in H. lra.
Qed.

Lemma py_max_le (a b c : Q) : (a <= c)%Q → (b <= c)%Q → (py_max a b <= c)%Q.
Proof. intros Ha Hb. unfold py_max. by destruct (Qltb a b). Qed.

(** Rounding to the nearest integer does not pass an integer bound. *)
Lemma round_half_even_le (x : Q) (m : Z) :
  (x <= inject_Z m)%Q → (round_half_even x ≤ m)%Z.
Proof.
  intros Hx. unfold round_half_even.
  pose proof (Qfloor_le x) as Hfloor.
  assert (Hlow : (Qfloor x ≤ m)%Z).
  { apply Qfloor_resp_le in Hx. by rewrite Qfloor_Z in Hx. }
  assert (Hup : (0 < x - inject_Z (Qfloor x))%Q → (Qfloor x + 1 ≤ m)%Z).
  { intros Hpos.
    assert (Hlt : (inject_Z (Qfloor x) < inject_Z m)%Q) by lra.
    rewrite <- Zlt_Qlt in Hlt. lia. }
  destruct (Qltb (x - inject_Z (Qfloor x)) (1 # 2)) eqn:H1; [done|].
  apply Qltb_ge in H1.
  destruct (Qltb (1 # 2) (x - inject_Z (Qfloor x))) eqn:H2;
    [apply Qltb_lt in H2; apply Hup; lra|].
  destruct (Z.even (Qfloor x)); [done|apply Hup; lra].
Qed.

Lemma nearest_tenth_le (x : Q) (m : Z) :
  (x * 10 <= inject_Z m)%Q → (nearest_tenth x <= inject_Z m / 10)%Q.
Proof.
  intros Hx%round_half_even_le. unfold nearest_tenth. rewrite Qred_correct.
  unfold Qdiv. apply Qmult_le_compat_r; [by rewrite <- Zle_Qle|done].
Qed.

Section FloatLaws.
Variable fl : Q → Q.

(** The two laws of rounding to nearest that the bounds rest on: it is
    monotone, and it leaves the halves of the integers up to 2^53, which
    are binary64 numbers, as they are. *)
Hypothesis fl_monotone : ∀ x y : Q, (x <= y)%Q → (fl x <= fl y)%Q.
Hypothesis fl_halves : ∀ n : Z, (Z.abs n ≤ 2 ^ 53)%Z → (fl (n # 2) == n # 2)%Q.

Lemma fl_le_half (x : Q) (n : Z) :
  (Z.abs n ≤ 2 ^ 53)%Z → (x <= n # 2)%Q → (fl x <= n # 2)%Q.
Proof.
  intros Hn Hx. rewrite <- (fl_halves n Hn). by apply fl_monotone.
Qed.

Lemma fl_ge_half (x : Q) (n : Z) :
  (Z.abs n ≤ 2 ^ 53)%Z → (n # 2 <= x)%Q → (n # 2 <= fl x)%Q.
Proof.
  intros Hn Hx. rewrite <- (fl_halves n Hn). by apply fl_monotone.
Qed.

Lemma length_score_le (wc : nat) : (length_score fl wc <= 5)%Q.
Proof. apply py_min_le_l. Qed.

Lemma structure_bonus_le (normalized_answer : string) :
  (structure_bonus fl normalized_answer <= 3 # 2)%Q.
Proof.
  unfold structure_bonus. cbv zeta.
  assert (H1 : (fl (0 + 1) <= 2 # 2)%Q) by (apply fl_le_half; [lia|lra]).
  destruct (2 <=? sentence_endings normalized_answer)%nat;
    destruct (py_contains _ normalized_answer);
    try (apply fl_le_half; [lia|]); lra.
Qed.

Lemma followup_bonus_le (sub_dialogue : option (list FollowUpPair)) :
  (followup_bonus fl sub_dialogue <= 1)%Q.
Proof.
  unfold followup_bonus. destruct sub_dialogue as [[|turn turns]|]; try lra.
  apply py_min_le_l.
Qed.

Lemma _coverage_penalty_range (question answer : string) :
  (0 ≤ _coverage_penalty fl question answer ≤ 2)%Z.
Proof.
  unfold _coverage_penalty. destruct (decide _); [lia|].
  destruct (Qle_bool _ _); [lia|]. destruct (Qle_bool _ _); lia.
Qed.

Lemma float_of_penalty_nonneg (question answer : string) :
  (0 <= float_of_int fl (_coverage_penalty fl question answer))%Q.
Proof.
  pose proof (_coverage_penalty_range question answer) as Hp.
  unfold float_of_int.
  assert (H0 : (0 # 2 <= fl (inject_Z (_coverage_penalty fl question answer)))%Q).
  { apply fl_ge_half; [lia|].
    assert (inject_Z 0 <= inject_Z (_coverage_penalty fl question answer))%Q
      by (rewrite <- Zle_Qle; lia).
    unfold inject_Z in *. lra. }
  lra.
Qed.

(** A raw score of at most [n/2], with [n/2] a multiple of 1/10 below
    10, is clamped to a score of at most [n/2]. *)
Lemma clamp_score_le (raw_score : Q) (n : Z) :
  (0 ≤ n ≤ 20)%Z → (raw_score <= n # 2)%Q → (clamp_score fl raw_score <= n # 2)%Q.
Proof.
  intros Hn Hraw. unfold clamp_score, py_round1.
  assert (Hn0 : (0 <= n # 2)%Q) by (unfold Qle; simpl; lia).
  assert (Hn10 : (n # 2 <= 10)%Q) by (unfold Qle; simpl; lia).
  apply py_max_le; [done|]. apply py_min_le; [|done].
  apply fl_le_half; [lia|].
  assert (Heq : (n # 2 == inject_Z (5 * n) / 10)%Q).
  { unfold Qeq, Qdiv, Qmult, Qinv, inject_Z. simpl. lia. }
  rewrite Heq. apply nearest_tenth_le.
  assert (Hten : ((n # 2) * 10 == inject_Z (5 * n))%Q).
  { unfold Qeq, Qmult, inject_Z. simpl. lia. }
  rewrite <- Hten. by apply Qmult_le_compat_r.
Qed.

Lemma feedback_for_not_strong (s : Q) : (s < 8)%Q → feedback_for s ≠ STRONG.
Proof.
  intros Hs. unfold feedback_for.
  destruct (Qle_bool 8 s) eqn:H8; [apply Qle_bool_iff in H8; lra|].
  by destruct (Qle_bool 5 s).
Qed.

(** C10: the parts of the score are bounded (length score by 5.0,
    structure bonus by 1.5, follow-up bonus by 1.0, the penalty not
    negative), so the scorer with attachment returns at most 7.5 and the
    individual scorer at most 6.5: no score reaches 8 and the feedback is
    never the "Strong, detailed answer ..." one. *)
Theorem scores_stay_below_strong
    (topic user question answer_text language : string)
    (sub_dialogue : option (list FollowUpPair)) :
  let with_attachment :=
    evaluate_single_answer_with_attachment fl topic user question answer_text
      language sub_dialogue in
  let individually := evaluate_answer_individually fl question answer_text language in
  (length_score fl (word_count answer_text) <= 5)%Q ∧
  (structure_bonus fl (py_strip answer_text) <= 3 # 2)%Q ∧
  (followup_bonus fl sub_dialogue <= 1)%Q ∧
  (0 ≤ _coverage_penalty fl question (py_strip answer_text))%Z ∧
  (att_score with_attachment <= 75 # 10)%Q ∧
  (score individually <= 65 # 10)%Q ∧
  (att_score with_attachment < 8)%Q ∧
  (score individually < 8)%Q ∧
  att_feedback with_attachment
    ≠ "Strong, detailed answer with good structure and coverage of the question." ∧
  feedback individually
    ≠ "Strong, detailed answer with good structure and coverage of the question.".
Proof.
  cbv zeta.
  pose proof (length_score_le (length (py_split (py_strip answer_text)))) as Hls.
  pose proof (structure_bonus_le (py_strip answer_text)) as Hsb.
  pose proof (followup_bonus_le sub_dialogue) as Hfb.
  pose proof (float_of_penalty_nonneg question (py_strip answer_text)) as Hcp.
  pose proof (_coverage_penalty_range question (py_strip answer_text)) as Hrange.
  assert (Hsum : (fl (length_score fl (length (py_split (py_strip answer_text)))
                      + structure_bonus fl (py_strip answer_text)) <= 13 # 2)%Q).
  { apply fl_le_half; [lia|lra]. }
  assert (Hatt : (att_score (evaluate_single_answer_with_attachment fl topic user
                               question answer_text language sub_dialogue)
                  <= 15 # 2)%Q).
  { unfold evaluate_single_answer_with_attachment. cbv zeta.
    destruct (decide _); simpl; [lra|].
    apply (clamp_score_le _ 15); [lia|].
    apply fl_le_half; [lia|].
    assert ((fl (fl (length_score fl (length (py_split (py_strip answer_text)))
                     + structure_bonus fl (py_strip answer_text))
                 + followup_bonus fl sub_dialogue) <= 15 # 2)%Q)
      by (apply fl_le_half; [lia|lra]).
    lra. }
  assert (Hind : (score (evaluate_answer_individually fl question answer_text language)
                  <= 13 # 2)%Q).
  { unfold evaluate_answer_individually. cbv zeta.
    destruct (decide _); simpl; [lra|].
    apply (clamp_score_le _ 13); [lia|].
    apply fl_le_half; [lia|lra]. }
  split; [exact Hls|]. split; [exact Hsb|]. split; [exact Hfb|].
  split; [lia|]. split; [lra|]. split; [lra|]. split; [lra|]. split; [lra|].
  split.
  - unfold evaluate_single_answer_with_attachment in *. cbv zeta in *.
    destruct (decide _); simpl in *; [done|].
    apply feedback_for_not_strong. lra.
  - unfold evaluate_answer_individually in *. cbv zeta in *.
    destruct (decide _); simpl in *; [done|].
    apply feedback_for_not_strong. lra.
Qed.

End FloatLaws.

(** The answer of the repository's test: 6 words, one sentence, none of
    the three terms of the question. *)
Example shallow_answer_scores_zero :
  evaluate_answer_individually fl_exact "Explain recursion in detail"
    "It is a function calling itself." "en"
  = {| score := 0; feedback := SHALLOW |}.
Proof. vm_compute. reflexivity. Qed.

Lemma scores_stay_below_strong_witness :
  (∀ x y : Q, (x <= y)%Q → (fl_exact x <= fl_exact y)%Q) ∧
  (∀ n : Z, (Z.abs n ≤ 2 ^ 53)%Z → (fl_exact (n # 2) == n # 2)%Q) ∧
  (score (evaluate_answer_individually fl_exact "Explain recursion in detail"
            "Recursion is explained in detail. It calls itself." "en") <= 65 # 10)%Q.
Proof.
  assert (Hmono : ∀ x y : Q, (x <= y)%Q → (fl_exact x <= fl_exact y)%Q)
    by (intros x y H; exact H).
  assert (Hhalves : ∀ n : Z, (Z.abs n ≤ 2 ^ 53)%Z → (fl_exact (n # 2) == n # 2)%Q)
    by (intros n _; apply Qeq_refl).
  split; [exact Hmono|]. split; [exact Hhalves|].
  exact (proj1 (proj2 (proj2 (proj2 (proj2 (proj2
           (scores_stay_below_strong fl_exact Hmono Hhalves "algorithms" "bob"
              "Explain recursion in detail"
              "Recursion is explained in detail. It calls itself." "en" None))))))).
Defined.

(** * Further properties of the services *)

(** ** Blanks around an answer *)

Lemma string_app_cons (x : ascii) (a b : string) :
  String x a +:+ b = String x (a +:+ b).
Proof. reflexivity. Qed.


Lemma string_app_nil_r (a : string) : a +:+ EmptyString = a.
Proof. induction a as [|x a IH]; [done|]. by rewrite string_app_cons, IH. Qed.








(** ** Range and shape of a score *)

Lemma py_max_ge_l (a b : Q) : (a <= py_max a b)%Q.
Proof.
  unfold py_max. destruct (Qltb a b) eqn:H; [|lra].
  apply Qltb_lt in H. lra.
Qed.

Lemma clamp_score_range (fl : Q → Q) (raw_score : Q) :
  (0 <= clamp_score fl raw_score <= 10)%Q.
Proof.
  unfold clamp_score. split; [apply py_max_ge_l|].
  apply py_max_le; [lra|apply py_min_le_l].
Qed.

(** X2: whatever the rounding of the floats, every score of the two
    scorers lies between 0.0 and 10.0. *)
Theorem score_between_0_and_10 (fl : Q → Q)
    (topic user question answer_text language : string)
    (sub_dialogue : option (list FollowUpPair)) :
  (0 <= att_score (evaluate_single_answer_with_attachment fl topic user question
                     answer_text language sub_dialogue) <= 10)%Q ∧
  (0 <= score (evaluate_answer_individually fl question answer_text language) <= 10)%Q.
Proof.
  unfold evaluate_single_answer_with_attachment, evaluate_answer_individually.
  cbv zeta. destruct (decide _); simpl; [lra|].
  split; apply clamp_score_range.
Qed.

Lemma tenth_le (t m : Z) : (t ≤ m)%Z → (inject_Z t / 10 <= inject_Z m / 10)%Q.
Proof.
  intros H. unfold Qdiv. apply Qmult_le_compat_r; [by rewrite <- Zle_Qle|done].
Qed.

Lemma py_min_mono (a x y : Q) : (x <= y)%Q → (py_min a x <= py_min a y)%Q.
Proof.
  intros Hxy. unfold py_min.
  destruct (Qltb x a) eqn:Hx; [apply Qltb_lt in Hx|apply Qltb_ge in Hx];
    (destruct (Qltb y a) eqn:Hy; [apply Qltb_lt in Hy|apply Qltb_ge in Hy]); lra.
Qed.

Section RoundingLaws.
Variable fl : Q → Q.
Hypothesis fl_monotone : ∀ x y : Q, (x <= y)%Q → (fl x <= fl y)%Q.
Hypothesis fl_halves : ∀ n : Z, (Z.abs n ≤ 2 ^ 53)%Z → (fl (n # 2) == n # 2)%Q.

Lemma fl_proper (x y : Q) : (x == y)%Q → (fl x == fl y)%Q.
Proof.
  intros Hxy. apply Qle_antisym; apply fl_monotone; rewrite Hxy; apply Qle_refl.
Qed.

Lemma clamp_score_tenth (raw_score : Q) :
  ∃ k : Z, (0 ≤ k ≤ 100)%Z ∧ (clamp_score fl raw_score == fl (inject_Z k / 10))%Q.
Proof.
  unfold clamp_score, py_round1, nearest_tenth.
  set (t := round_half_even (raw_score * 10)).
  assert (Hr : (fl (Qred (inject_Z t / 10)) == fl (inject_Z t / 10))%Q)
    by apply fl_proper, Qred_correct.
  set (r := fl (Qred (inject_Z t / 10))) in *.
  assert (H0 : (fl (inject_Z 0 / 10) == 0)%Q).
  { rewrite (fl_proper _ (0 # 2)) by done. by rewrite fl_halves. }
  assert (H10 : (fl (inject_Z 100 / 10) == 10)%Q).
  { rewrite (fl_proper _ (20 # 2)) by done. by rewrite fl_halves. }
  unfold py_min. destruct (Qltb r 10) eqn:Hlt10.
  - apply Qltb_lt in Hlt10. unfold py_max. destruct (Qltb 0 r) eqn:Hpos.
    + apply Qltb_lt in Hpos. exists t. split; [|exact Hr].
      split.
      * destruct (Z.le_gt_cases 0 t) as [|Hneg]; [done|exfalso].
        assert (Hle : (inject_Z t / 10 <= inject_Z 0 / 10)%Q) by (apply tenth_le; lia).
        apply fl_monotone in Hle. lra.
      * destruct (Z.le_gt_cases t 100) as [|Hbig]; [done|exfalso].
        assert (Hle : (inject_Z 100 / 10 <= inject_Z t / 10)%Q) by (apply tenth_le; lia).
        apply fl_monotone in Hle. lra.
    + exists 0%Z. split; [lia|]. by rewrite H0.
  - exists 100%Z. split; [lia|]. by rewrite H10.
Qed.

(** X3: rounded to one decimal: every score of the two scorers is the
    float of [k/10] for an integer [k] from 0 to 100. *)
Theorem score_has_one_decimal
    (topic user question answer_text language : string)
    (sub_dialogue : option (list FollowUpPair)) :
  (∃ k : Z, (0 ≤ k ≤ 100)%Z ∧
     (att_score (evaluate_single_answer_with_attachment fl topic user question
                   answer_text language sub_dialogue) == fl (inject_Z k / 10))%Q) ∧
  (∃ k : Z, (0 ≤ k ≤ 100)%Z ∧
     (score (evaluate_answer_individually fl question answer_text language)
        == fl (inject_Z k / 10))%Q).
Proof.
  assert (H0 : (0 == fl (inject_Z 0 / 10))%Q).
  { rewrite (fl_proper _ (0 # 2)) by done. by rewrite fl_halves. }
  unfold evaluate_single_answer_with_attachment, evaluate_answer_individually.
  cbv zeta. destruct (decide _); simpl.
  - split; exists 0%Z; (split; [lia|exact H0]).
  - split; apply clamp_score_tenth.
Qed.

Lemma py_min_saturates (a x : Q) : (a <= x)%Q → py_min a x = a.
Proof.
  intros H. unfold py_min. destruct (Qltb x a) eqn:Hx; [|done].
  apply Qltb_lt in Hx. lra.
Qed.

Lemma float_of_int_mono (a b : Z) :
  (a ≤ b)%Z → (float_of_int fl a <= float_of_int fl b)%Q.
Proof. intros H. apply fl_monotone. by rewrite <- Zle_Qle. Qed.

Lemma float_of_int_small (n : Z) :
  (Z.abs n ≤ 2 ^ 52)%Z → (float_of_int fl n == inject_Z n)%Q.
Proof.
  intros Hn. unfold float_of_int.
  assert (Heq : (inject_Z n == 2 * n # 2)%Q) by (unfold Qeq, inject_Z; simpl; lia).
  rewrite (fl_proper _ _ Heq), fl_halves by lia. by rewrite Heq.
Qed.

(** X4: the length score never decreases when words are added, and from
    75 words on it is exactly 5.0. *)
Theorem length_score_grows_and_saturates :
  (∀ wc1 wc2 : nat, wc1 ≤ wc2 → (length_score fl wc1 <= length_score fl wc2)%Q) ∧
  (∀ wc : nat, 75 ≤ wc → length_score fl wc = 5%Q).
Proof.
  split.
  - intros wc1 wc2 Hwc. unfold length_score. apply py_min_mono, fl_monotone.
    unfold Qdiv. apply Qmult_le_compat_r; [|done].
    apply float_of_int_mono. lia.
  - intros wc Hwc. unfold length_score. apply py_min_saturates.
    assert (H75 : (75 <= float_of_int fl (Z.of_nat wc))%Q).
    { rewrite <- (float_of_int_small 75) by lia. apply float_of_int_mono. lia. }
    assert (H5 : (10 # 2 <= float_of_int fl (Z.of_nat wc) / 15)%Q).
    { apply Qle_shift_div_l; [done|]. lra. }
    apply fl_monotone in H5. rewrite fl_halves in H5 by lia. lra.
Qed.

(** X5: from four sub-dialogue turns on the follow-up bonus is exactly
    1.0; without turns it is 0.0; it always lies between the two. *)
Theorem followup_bonus_saturates (sub_dialogue : option (list FollowUpPair)) :
  (0 <= followup_bonus fl sub_dialogue <= 1)%Q ∧
  (default [] sub_dialogue = [] → followup_bonus fl sub_dialogue = 0%Q) ∧
  (4 ≤ length (default [] sub_dialogue) → followup_bonus fl sub_dialogue = 1%Q).
Proof.
  destruct sub_dialogue as [[|turn turns]|]; simpl;
    try (split; [lra|split; [done|lia]]).
  set (n := Z.of_nat (S (length turns))).
  assert (Hn : (1 <= float_of_int fl n)%Q).
  { rewrite <- (float_of_int_small 1) by lia. apply float_of_int_mono. lia. }
  split; [split|split; [done|]].
  - assert (Hq : (0 # 2 <= fl (float_of_int fl n * (1 # 4)))%Q).
    { rewrite <- (fl_halves 0) by lia. apply fl_monotone. lra. }
    unfold py_min. destruct (Qltb _ 1); lra.
  - apply py_min_le_l.
  - intros Hlen. apply py_min_saturates.
    assert (H4 : (4 <= float_of_int fl n)%Q).
    { rewrite <- (float_of_int_small 4) by lia. apply float_of_int_mono. lia. }
    assert (H1 : (2 # 2 <= float_of_int fl n * (1 # 4))%Q) by lra.
    apply fl_monotone in H1. rewrite fl_halves in H1 by lia. lra.
Qed.

End RoundingLaws.

Lemma fl_exact_monotone (x y : Q) : (x <= y)%Q → (fl_exact x <= fl_exact y)%Q.
Proof. intros H. exact H. Qed.

Lemma fl_exact_halves (n : Z) : (Z.abs n ≤ 2 ^ 53)%Z → (fl_exact (n # 2) == n # 2)%Q.
Proof. intros _. apply Qeq_refl. Qed.

Lemma fl_exact_idempotent (x : Q) : (fl_exact (fl_exact x) == fl_exact x)%Q.
Proof. apply Qeq_refl. Qed.

Lemma score_has_one_decimal_witness :
  ∃ k : Z, (0 ≤ k ≤ 100)%Z ∧
    (score (evaluate_answer_individually fl_exact "Explain recursion in detail"
              "Recursion is explained in detail. It calls itself." "en")
       == fl_exact (inject_Z k / 10))%Q.
Proof.
  exact (proj2 (score_has_one_decimal fl_exact fl_exact_monotone fl_exact_halves
                  "t" "u" "Explain recursion in detail"
                  "Recursion is explained in detail. It calls itself." "en" None)).
Defined.

Lemma length_score_grows_and_saturates_witness :
  (length_score fl_exact 10 <= length_score fl_exact 20)%Q ∧
  length_score fl_exact 80 = 5%Q.
Proof.
  destruct (length_score_grows_and_saturates fl_exact fl_exact_monotone fl_exact_halves)
    as [Hmono Hsat].
  split; [apply Hmono; lia|apply Hsat; lia].
Defined.

Lemma followup_bonus_saturates_witness :
  followup_bonus fl_exact (Some (replicate 5 sample_turn)) = 1%Q.
Proof.
  apply (followup_bonus_saturates fl_exact fl_exact_monotone fl_exact_halves
           (Some (replicate 5 sample_turn))).
  simpl. lia.
Defined.

(** ** Feedback and the two scorers side by side *)

Lemma round_half_even_proper (x y : Q) :
  (x == y)%Q → round_half_even x = round_half_even y.
Proof.
  intros Hxy. unfold round_half_even.
  assert (Hf : Qfloor x = Qfloor y) by by rewrite Hxy.
  rewrite Hf.
  assert (Hd : (x - inject_Z (Qfloor y) == y - inject_Z (Qfloor y))%Q) by by rewrite Hxy.
  unfold Qltb. by rewrite !(Qleb_comp _ _ (Qeq_refl (1 # 2)) _ _ Hd),
    !(Qleb_comp _ _ Hd _ _ (Qeq_refl (1 # 2))).
Qed.

Lemma nearest_tenth_proper (x y : Q) : (x == y)%Q → nearest_tenth x = nearest_tenth y.
Proof.
  intros Hxy. unfold nearest_tenth.
  by rewrite (round_half_even_proper (x * 10) (y * 10)) by by rewrite Hxy.
Qed.

Section ScorersCompared.
Variable fl : Q → Q.
Hypothesis fl_monotone : ∀ x y : Q, (x <= y)%Q → (fl x <= fl y)%Q.
Hypothesis fl_halves : ∀ n : Z, (Z.abs n ≤ 2 ^ 53)%Z → (fl (n # 2) == n # 2)%Q.
(** Rounding a float again changes nothing. *)
Hypothesis fl_idempotent : ∀ x : Q, (fl (fl x) == fl x)%Q.

Lemma raw_score_le_13_2 (question normalized_answer : string) (wc : nat) :
  (fl (fl (length_score fl wc + structure_bonus fl normalized_answer)
       - float_of_int fl (_coverage_penalty fl question normalized_answer)) <= 13 # 2)%Q.
Proof.
  pose proof (length_score_le fl wc) as Hls.
  pose proof (structure_bonus_le fl fl_monotone fl_halves normalized_answer) as Hsb.
  pose proof (float_of_penalty_nonneg fl fl_monotone fl_halves question normalized_answer)
    as Hcp.
  assert ((fl (length_score fl wc + structure_bonus fl normalized_answer) <= 13 # 2)%Q)
    by (apply (fl_le_half fl fl_monotone fl_halves); [lia|lra]).
  apply (fl_le_half fl fl_monotone fl_halves); [lia|lra].
Qed.


(** X7: without a sub-dialogue ([None] or an empty one) the scorer with
    attachment gives the score and the feedback of the individual
    scorer. *)
Theorem scorers_agree_without_sub_dialogue
    (topic user question answer_text language : string)
    (sub_dialogue : option (list FollowUpPair)) :
  default [] sub_dialogue = [] →
  let with_attachment :=
    evaluate_single_answer_with_attachment fl topic user question answer_text
      language sub_dialogue in
  let individually := evaluate_answer_individually fl question answer_text language in
  att_score with_attachment = score individually ∧
  att_feedback with_attachment = feedback individually.
Proof.
  intros Hsub. cbv zeta.
  unfold evaluate_single_answer_with_attachment, evaluate_answer_individually.
  cbv zeta. destruct (decide _); simpl; [done|].
  assert (Hbonus : followup_bonus fl sub_dialogue = 0%Q).
  { by destruct sub_dialogue as [[|? ?]|]. }
  rewrite Hbonus.
  set (base := (length_score fl _ + structure_bonus fl _)%Q).
  set (cp := float_of_int fl _).
  assert (Hraw : (fl (fl (fl base + 0) - cp) == fl (fl base - cp))%Q).
  { apply (fl_proper fl fl_monotone).
    assert (Hb : (fl (fl base + 0) == fl base)%Q).
    { rewrite (fl_proper fl fl_monotone (fl base + 0) (fl base)) by lra.
      apply fl_idempotent. }
    by rewrite Hb. }
  assert (Hclamp : clamp_score fl (fl (fl (fl base + 0) - cp))
                   = clamp_score fl (fl (fl base - cp))).
  { unfold clamp_score, py_round1. by rewrite (nearest_tenth_proper _ _ Hraw). }
  by rewrite Hclamp.
Qed.

End ScorersCompared.


Lemma scorers_agree_without_sub_dialogue_witness :
  att_score (evaluate_single_answer_with_attachment fl_exact "algorithms" "bob"
               "Explain recursion in detail"
               "Recursion is explained in detail. It calls itself." "en" (Some []))
  = score (evaluate_answer_individually fl_exact "Explain recursion in detail"
             "Recursion is explained in detail. It calls itself." "en").
Proof.
  exact (proj1 (scorers_agree_without_sub_dialogue fl_exact fl_exact_monotone
                  fl_exact_idempotent "algorithms" "bob" "Explain recursion in detail"
                  "Recursion is explained in detail. It calls itself." "en" (Some [])
                  eq_refl)).
Defined.

(** ** Coverage: quoting the question, and letter case *)









Section Coverage.
Variable fl : Q → Q.
Hypothesis fl_monotone : ∀ x y : Q, (x <= y)%Q → (fl x <= fl y)%Q.



End Coverage.






(** ** What the continuation flow reads and writes *)

Section FlowEffects.
Variable fl : Q → Q.
Variable int_of_str : string → option Z.
Variable float_str : Q → string.


(** X11: without an answer id ([None] or 0), or with an id that has no
    row, [continue_followups] writes nothing. *)
Theorem continue_followups_without_row_writes_nothing (st : Store)
    (topic user question main_answer language : string)
    (followup_pairs : list FollowUpPair) (target_followups : PyVal)
    (answer_id : option Z) (draw : nat) :
  match id_truthy answer_id with
  | Some id => answer_get st id = None
  | None => True
  end →
  (continue_followups fl int_of_str float_str st topic user question main_answer
     followup_pairs language target_followups answer_id draw).2 = st.
Proof.
  intros Hid. unfold continue_followups.
  destruct (plan_target int_of_str target_followups); [|done].
  destruct (id_truthy answer_id) as [id|].
  - rewrite Hid. destruct (FOLLOW_UP_COUNT <=? _)%Z; simpl; by rewrite Hid.
  - by destruct (FOLLOW_UP_COUNT <=? _)%Z.
Qed.

End FlowEffects.

Lemma continue_followups_without_row_writes_nothing_witness :
  (continue_followups fl_exact decimal_int tenths_str empty_store "algorithms" "bob"
     "Explain recursion in detail" "It is a function calling itself."
     (replicate 8 sample_turn) "en" PNone (Some 7%Z) 0).2 = empty_store.
Proof.
  apply (continue_followups_without_row_writes_nothing fl_exact decimal_int tenths_str
           empty_store).
  reflexivity.
Defined.

(** ** The rows after a continuation *)

Lemma save_followups_other (st : Store) (id : Z) (idx : nat) (pairs : list FollowUpPair)
    (k : Z * nat) :
  (∀ j, idx ≤ j < idx + length pairs → k ≠ (id, j)) →
  followups (save_followups st id idx pairs) !! k = followups st !! k.
Proof.
  revert st idx. induction pairs as [|turn rest IH]; intros st idx Hk; simpl in *; [done|].
  assert (Hne : (id, idx) ≠ k) by (intros <-; apply (Hk idx); [lia|done]).
  unfold followup_get_or_create.
  destruct (followups st !! (id, idx)) as [row|]; simpl;
    (rewrite IH; [|intros j Hj; apply Hk; lia]); simpl; by rewrite lookup_insert_ne.
Qed.

(** After the saving loop the row of every supplied index carries the
    texts of its pair. *)
Lemma save_followups_content (st : Store) (id : Z) (idx : nat)
    (pairs : list FollowUpPair) (i : nat) (turn : FollowUpPair) :
  pairs !! i = Some turn →
  ∃ f, followups (save_followups st id idx pairs) !! (id, idx + i) = Some f ∧
       fu_question_text f = pair_question turn ∧
       fu_answer_text f = pair_answer turn.
Proof.
  revert st idx i. induction pairs as [|first rest IH]; intros st idx i Hi; [done|].
  destruct i as [|i]; simpl in Hi.
  - injection Hi as ->. simpl. rewrite Nat.add_0_r.
    unfold followup_get_or_create.
    destruct (followups st !! (id, idx)) as [row|]; simpl;
      (rewrite save_followups_other; [|intros j Hj [= ->]; lia]); simpl;
      rewrite lookup_insert_eq; eauto.
  - simpl. replace (idx + S i) with (S idx + i) by lia.
    destruct (followup_get_or_create st (id, idx) _ _) as [[row created] st1].
    by apply IH.
Qed.

Lemma score_followups_texts (st : Store) (id : Z) (idx : nat)
    (evaluations : list FollowupEvaluation) (k : Z * nat) (f : FollowUp) :
  followups st !! k = Some f →
  ∃ f', followups (score_followups st id idx evaluations) !! k = Some f' ∧
        fu_question_text f' = fu_question_text f ∧
        fu_answer_text f' = fu_answer_text f.
Proof.
  revert st idx f. induction evaluations as [|ev rest IH]; intros st idx f Hk; simpl;
    [eauto|].
  destruct (followups st !! (id, idx)) as [row|] eqn:Hrow; [|eauto].
  destruct (decide (k = (id, idx))) as [->|Hne].
  - assert (row = f) as -> by congruence.
    edestruct (IH (followup_put st (id, idx)
                 {| fu_question_text := fu_question_text f;
                    fu_answer_text := fu_answer_text f;
                    fu_score := Some (fe_score ev); fu_feedback := fe_feedback ev |})
               (S idx)) as (f' & Hf' & Hq & Ha).
    { simpl. apply lookup_insert_eq. }
    eauto.
  - apply IH. simpl. by rewrite lookup_insert_ne.
Qed.

(** When the rows are there, the scoring loop gives each the score and
    the feedback of its evaluation. *)
Lemma score_followups_content (st : Store) (id : Z) (idx : nat)
    (evaluations : list FollowupEvaluation) (i : nat) (ev : FollowupEvaluation) :
  (∀ j, idx ≤ j < idx + length evaluations → is_Some (followups st !! (id, j))) →
  evaluations !! i = Some ev →
  ∃ f, followups (score_followups st id idx evaluations) !! (id, idx + i) = Some f ∧
       fu_score f = Some (fe_score ev) ∧ fu_feedback f = fe_feedback ev.
Proof.
  revert st idx i. induction evaluations as [|first rest IH]; intros st idx i Hall Hi;
    [done|].
  simpl. destruct (Hall idx) as [row Hrow]; [simpl; lia|]. rewrite Hrow.
  destruct i as [|i]; simpl in Hi.
  - injection Hi as ->. rewrite Nat.add_0_r.
    rewrite score_followups_other; [|intros j Hj [= ->]; lia].
    simpl. rewrite lookup_insert_eq. eauto.
  - replace (idx + S i) with (S idx + i) by lia. apply IH; [|done].
    intros j Hj. simpl. rewrite lookup_insert_ne; [|intros [= ->]; lia].
    apply Hall. simpl. lia.
Qed.

Section RowsAfterContinuation.
Variable fl : Q → Q.
Variable int_of_str : string → option Z.
Variable float_str : Q → string.

(** X12: for an answer that has its row, [continue_followups] stores
    every supplied pair at its index, the resubmitted text replacing
    what was there, sets [completed_followups] to the number of pairs,
    and leaves the other answers and their follow-ups alone. *)
Theorem continuation_saves_every_pair (st : Store)
    (topic user question main_answer language : string)
    (followup_pairs : list FollowUpPair) (target_followups : PyVal)
    (answer_id : option Z) (draw : nat) (clamped id : Z) (a : Answer) :
  plan_target int_of_str target_followups = Returned clamped →
  id_truthy answer_id = Some id →
  answer_get st id = Some a →
  let st' :=
    (continue_followups fl int_of_str float_str st topic user question main_answer
       followup_pairs language target_followups answer_id draw).2 in
  (∀ i turn, followup_pairs !! i = Some turn →
     ∃ f, followups st' !! (id, i) = Some f ∧
          fu_question_text f = pair_question turn ∧
          fu_answer_text f = pair_answer turn) ∧
  (∃ a', answer_get st' id = Some a' ∧
         a_completed_followups a' = Z.of_nat (length followup_pairs) ∧
         a_answer_text a' = a_answer_text a ∧
         a_question a' = a_question a ∧
         a_target_followups a' = a_target_followups a) ∧
  (∀ id', id' ≠ id → answer_get st' id' = answer_get st id') ∧
  (∀ id' idx, id' ≠ id → followups st' !! (id', idx) = followups st !! (id', idx)).
Proof.
  intros Hplan Hid Ha. cbv zeta. unfold continue_followups.
  rewrite Hplan, Hid, Ha.
  set (n := length followup_pairs).
  set (sf := save_followups st id 0 followup_pairs).
  set (a1 := {| a_question := a_question a; a_completed_followups := Z.of_nat n |}).
  assert (Hsfa : answer_get sf id = Some a).
  { unfold answer_get, sf. by rewrite save_followups_answers. }
  assert (Hget1 : ∀ id', answer_get (answer_save sf id a1) id' =
                         if decide (id' = id) then Some a1 else answer_get st id').
  { intros id'. rewrite (answer_get_save sf id id' a1 a Hsfa).
    case_decide; [done|]. unfold answer_get, sf. by rewrite save_followups_answers. }
  pose proof (Hget1 id) as Hid1. rewrite decide_True in Hid1 by done.
  assert (Hsaved : ∀ i turn, followup_pairs !! i = Some turn →
            ∃ f, followups sf !! (id, i) = Some f ∧
                 fu_question_text f = pair_question turn ∧
                 fu_answer_text f = pair_answer turn).
  { intros i turn Hi. apply (save_followups_content st id 0 followup_pairs i turn Hi). }
  assert (Hothers : ∀ id' idx, id' ≠ id →
            followups sf !! (id', idx) = followups st !! (id', idx)).
  { intros id' idx Hne. apply save_followups_other. by intros j _ [= ? _]. }
  unfold FOLLOW_UP_COUNT.
  destruct (8 <=? Z.of_nat n)%Z eqn:Hfin; simpl; rewrite Hid1.
  - set (a2 := {| a_question := a_question a1 |}).
    set (sv := answer_save (answer_save sf id a1) id a2).
    set (evs := evaluate_pair fl language <$> followup_pairs).
    split; [|split; [|split]].
    + intros i turn Hi. destruct (Hsaved i turn Hi) as (f & Hf & Hq & Hans).
      destruct (score_followups_texts sv id 0 evs (id, i) f Hf) as (f' & Hf' & Hq' & Ha').
      exists f'. split; [exact Hf'|]. by rewrite Hq', Ha'.
    + exists a2. split; [|done].
      unfold answer_get. rewrite score_followups_answers. fold (answer_get sv id).
      unfold sv. by rewrite (answer_get_save _ id id a2 a1 Hid1), decide_True.
    + intros id' Hne. unfold answer_get. rewrite score_followups_answers.
      fold (answer_get sv id'). unfold sv.
      rewrite (answer_get_save _ id id' a2 a1 Hid1), decide_False by done.
      by rewrite Hget1, decide_False.
    + intros id' idx Hne.
      rewrite score_followups_other by (intros j _ [= ? _]; done).
      by apply Hothers.
  - set (s1 := answer_save sf id a1).
    split; [|split; [|split]].
    + intros i turn Hi. destruct (Hsaved i turn Hi) as (f & Hf & Hq & Hans).
      exists f. split; [|done]. by apply followup_get_or_create_keeps.
    + exists a1. split; [|done].
      unfold answer_get. rewrite followup_get_or_create_answers. exact Hid1.
    + intros id' Hne. unfold answer_get. rewrite followup_get_or_create_answers.
      fold (answer_get s1 id'). unfold s1. by rewrite Hget1, decide_False.
    + intros id' idx Hne. unfold followup_get_or_create.
      destruct (followups s1 !! (id, n)); simpl; [by apply Hothers|].
      rewrite lookup_insert_ne by congruence. by apply Hothers.
Qed.

(** X13: when it finalizes for an answer that has its row,
    [continue_followups] stores what it reports: the answer row gets the
    original score as [initial_score] and the average as [final_score]
    and [average_score], and the follow-up row of every pair gets the
    score and feedback of that pair's evaluation. *)
Theorem finalization_stores_the_report (st : Store)
    (topic user question main_answer language : string)
    (followup_pairs : list FollowUpPair) (target_followups : PyVal)
    (answer_id : option Z) (draw : nat) (clamped id : Z) (a : Answer) :
  plan_target int_of_str target_followups = Returned clamped →
  id_truthy answer_id = Some id →
  answer_get st id = Some a →
  8 ≤ length followup_pairs →
  let result :=
    continue_followups fl int_of_str float_str st topic user question main_answer
      followup_pairs language target_followups answer_id draw in
  ∃ r a',
    result.1 = Returned (Evaluated r) ∧
    answer_get result.2 id = Some a' ∧
    a_initial_score a' = Some (r_original_score r) ∧
    a_final_score a' = Some (r_average_score r) ∧
    a_average_score a' = Some (r_average_score r) ∧
    a_initial_feedback a' = feedback (r_evaluation_original r) ∧
    length (r_evaluation_followups r) = length followup_pairs ∧
    ∀ i ev, r_evaluation_followups r !! i = Some ev →
      ∃ f, followups result.2 !! (id, i) = Some f ∧
           fu_score f = Some (fe_score ev) ∧ fu_feedback f = fe_feedback ev.
Proof.
  intros Hplan Hid Ha Hlen. cbv zeta. unfold continue_followups.
  rewrite Hplan, Hid, Ha.
  set (n := length followup_pairs) in *.
  set (sf := save_followups st id 0 followup_pairs).
  set (a1 := {| a_question := a_question a; a_completed_followups := Z.of_nat n |}).
  assert (Hsfa : answer_get sf id = Some a).
  { unfold answer_get, sf. by rewrite save_followups_answers. }
  assert (Hid1 : answer_get (answer_save sf id a1) id = Some a1).
  { by rewrite (answer_get_save sf id id a1 a Hsfa), decide_True. }
  unfold FOLLOW_UP_COUNT.
  destruct (8 <=? Z.of_nat n)%Z eqn:Hfin; [|apply Z.leb_gt in Hfin; lia].
  simpl. rewrite Hid1.
  set (a2 := {| a_question := a_question a1 |}).
  set (sv := answer_save (answer_save sf id a1) id a2).
  set (evs := evaluate_pair fl language <$> followup_pairs).
  assert (Hevs : length evs = n) by apply length_fmap.
  eexists _, a2. split; [reflexivity|]. simpl.
  split.
  { unfold answer_get. rewrite score_followups_answers. fold (answer_get sv id).
    unfold sv. by rewrite (answer_get_save _ id id a2 a1 Hid1), decide_True. }
  do 4 (split; [done|]). split; [exact Hevs|].
  intros i ev Hi.
  apply (score_followups_content sv id 0 evs i ev); [|exact Hi].
  intros j Hj. simpl. apply save_followups_all. unfold n in Hevs. lia.
Qed.

End RowsAfterContinuation.

Lemma continuation_saves_every_pair_witness :
  ∃ f,
    followups
      (continue_followups fl_exact decimal_int tenths_str sample_store "algorithms"
         "bob" "Explain recursion in detail" "It is a function calling itself."
         [sample_turn] "en" PNone (Some 1%Z) 0).2 !! (1%Z, 0) = Some f ∧
    fu_answer_text f = pair_answer sample_turn.
Proof.
  destruct (continuation_saves_every_pair fl_exact decimal_int tenths_str sample_store
              "algorithms" "bob" "Explain recursion in detail"
              "It is a function calling itself." "en" [sample_turn] PNone (Some 1%Z) 0
              8%Z 1%Z sample_answer eq_refl eq_refl eq_refl) as (Hsaved & _).
  destruct (Hsaved 0 sample_turn eq_refl) as (f & Hf & _ & Ha). eauto.
Defined.

Lemma finalization_stores_the_report_witness :
  ∃ r a',
    (continue_followups fl_exact decimal_int tenths_str sample_store "algorithms"
       "bob" "Explain recursion in detail" "It is a function calling itself."
       (replicate 8 sample_turn) "en" PNone (Some 1%Z) 0).1 = Returned (Evaluated r) ∧
    answer_get
      (continue_followups fl_exact decimal_int tenths_str sample_store "algorithms"
         "bob" "Explain recursion in detail" "It is a function calling itself."
         (replicate 8 sample_turn) "en" PNone (Some 1%Z) 0).2 1 = Some a' ∧
    a_final_score a' = Some (r_average_score r).
Proof.
  destruct (finalization_stores_the_report fl_exact decimal_int tenths_str sample_store
              "algorithms" "bob" "Explain recursion in detail"
              "It is a function calling itself." "en" (replicate 8 sample_turn) PNone
              (Some 1%Z) 0 8%Z 1%Z sample_answer eq_refl eq_refl eq_refl)
    as (r & a' & Hr & Ha' & _ & Hfinal & _).
  { simpl. lia. }
  exists r, a'. eauto.
Defined.

(** ** Follow-up indices without gaps *)

Lemma score_followups_rows (st : Store) (id : Z) (idx : nat)
    (evaluations : list FollowupEvaluation) (k : Z * nat) :
  is_Some (followups (score_followups st id idx evaluations) !! k)
  ↔ is_Some (followups st !! k).
Proof.
  revert st idx. induction evaluations as [|ev rest IH]; intros st idx; simpl; [done|].
  destruct (followups st !! (id, idx)) as [row|] eqn:Hrow; [|done].
  rewrite IH. simpl. destruct (decide (k = (id, idx))) as [->|Hne].
  - rewrite lookup_insert_eq, Hrow. split; eauto.
  - by rewrite lookup_insert_ne.
Qed.

Lemma handle_question_flow_gapless (st : Store)
    (topic user question main_answer language : string)
    (question_index : option Z) (draw : nat) :
  gapless st →
  gapless (handle_question_flow st topic user question main_answer language
             question_index draw).2.
Proof.
  intros Hgap id idx [f Hf].
  pose proof (handle_question_flow_tables st topic user question main_answer language
                question_index draw) as (_ & Hnew & Hkeep).
  cbv zeta in Hnew, Hkeep.
  destruct (Hnew _ _ Hf) as [Hold|[_ Hzero]]; [|done].
  destruct (Hgap id idx) as [g Hg]; [eauto|]. eauto.
Qed.

Section Gapless.
Variable fl : Q → Q.
Variable int_of_str : string → option Z.
Variable float_str : Q → string.

Lemma continue_followups_gapless (st : Store)
    (topic user question main_answer language : string)
    (followup_pairs : list FollowUpPair) (target_followups : PyVal)
    (answer_id : option Z) (draw : nat) :
  gapless st →
  gapless (continue_followups fl int_of_str float_str st topic user question
             main_answer followup_pairs language target_followups answer_id draw).2.
Proof.
  intros Hgap. unfold continue_followups.
  destruct (plan_target int_of_str target_followups) as [clamped|e]; [|done].
  destruct (id_truthy answer_id) as [id|];
    [|by destruct (FOLLOW_UP_COUNT <=? _)%Z].
  destruct (answer_get st id) as [a|] eqn:Ha;
    [|by destruct (FOLLOW_UP_COUNT <=? _)%Z; simpl; rewrite Ha].
  set (n := length followup_pairs).
  set (sf := save_followups st id 0 followup_pairs).
  set (a1 := {| a_question := a_question a; a_completed_followups := Z.of_nat n |}).
  assert (Hsfa : answer_get sf id = Some a).
  { unfold answer_get, sf. by rewrite save_followups_answers. }
  assert (Hid1 : answer_get (answer_save sf id a1) id = Some a1).
  { by rewrite (answer_get_save sf id id a1 a Hsfa), decide_True. }
  (* the rows after the saving loop have no gap *)
  assert (Hsf : ∀ id' idx, is_Some (followups sf !! (id', S idx)) →
                           is_Some (followups sf !! (id', idx))).
  { intros id' idx [f Hf].
    destruct (save_followups_lookup _ _ _ _ _ Hf) as [(f0 & Hf0 & _)|(j & [= -> <-] & Hj)].
    - destruct (Hgap id' idx) as [g Hg]; [eauto|].
      destruct (save_followups_keeps st id 0 followup_pairs _ _ Hg) as (g' & Hg' & _).
      eauto.
    - apply save_followups_all. lia. }
  unfold FOLLOW_UP_COUNT.
  destruct (8 <=? Z.of_nat n)%Z eqn:Hfin; simpl; rewrite Hid1.
  - intros id' idx. rewrite !score_followups_rows. simpl. apply Hsf.
  - intros id' idx [f Hf].
    apply followup_get_or_create_lookup in Hf as [Hf|([= -> Hn] & _)].
    + destruct (Hsf id' idx) as [g Hg]; [simpl in Hf; eauto|].
      exists g. by apply followup_get_or_create_keeps.
    + destruct (save_followups_all st id 0 followup_pairs idx) as [g Hg];
        [fold n; lia|].
      exists g. by apply followup_get_or_create_keeps.
Qed.

(** X14: in every store the flow operations reach, the follow-ups of an
    answer have the indices 0, 1, ... up to some index, without a gap: a
    follow-up is never there before its predecessors. *)
Theorem followup_indices_have_no_gap (st : Store) :
  reachable fl int_of_str float_str st → gapless st.
Proof.
  induction 1 as [|st ? ? ? ? ? ? ? _ IH|st ? ? ? ? ? ? ? ? ? _ IH].
  - intros id idx [f Hf]. simpl in Hf. by rewrite lookup_empty in Hf.
  - by apply handle_question_flow_gapless.
  - by apply continue_followups_gapless.
Qed.

End Gapless.

Lemma followup_indices_have_no_gap_witness :
  gapless
    (continue_followups fl_exact decimal_int tenths_str
       (handle_question_flow empty_store "algorithms" "bob"
          "Explain recursion in detail" "It is a function calling itself." "en" None
          0).2
       "algorithms" "bob" "Explain recursion in detail"
       "It is a function calling itself." (replicate 3 sample_turn) "en" PNone
       (Some 1%Z) 0).2.
Proof.
  apply (followup_indices_have_no_gap fl_exact decimal_int tenths_str).
  apply reach_continue, reach_initial, reach_empty.
Defined.

(** ** The rows after an initial submission *)



(** ** The batch of follow-up prompts *)

(** X16: the batch generator returns [max(min_questions,
    min(max_questions, 8))] prompts (none when that is not positive), and
    its prompt number [i] is the prompt that the one-by-one generator
    makes for [asked_count = i] from the same draw. *)
Theorem follow_up_batch_agrees_with_next
    (topic user original_question original_answer language : string)
    (min_questions max_questions : Z) (draws : nat → nat) :
  let batch :=
    generate_follow_up_question_set topic user original_question original_answer
      language min_questions max_questions draws in
  Z.of_nat (length batch) = Z.max 0 (Z.max min_questions (Z.min max_questions 8)) ∧
  ∀ i prompt, batch !! i = Some prompt →
    prompt = generate_next_follow_up_question topic user original_question
               original_answer language (Z.of_nat i) (draws i).
Proof.
  cbv zeta. unfold generate_follow_up_question_set, FOLLOW_UP_COUNT.
  set (target_count := Z.max min_questions (Z.min max_questions 8)).
  set (prompts := _ <$> seq 0 (Z.to_nat target_count)).
  assert (Hlen : length prompts = Z.to_nat target_count).
  { unfold prompts. by rewrite length_fmap, length_seq. }
  assert (Hprefix : py_list_prefix target_count prompts = prompts).
  { unfold py_list_prefix. destruct (0 <=? target_count)%Z eqn:Hpos.
    - apply firstn_all2. lia.
    - apply Z.leb_gt in Hpos. destruct prompts; [done|simpl in Hlen; lia]. }
  rewrite Hprefix. split; [lia|].
  intros i prompt Hi. unfold prompts in Hi.
  apply list_lookup_fmap_Some in Hi as (idx & -> & Hidx).
  apply lookup_seq in Hidx as [-> _]. reflexivity.
Qed.

(** ** The context of a prompt *)

Lemma py_take_drop (n : nat) (s : string) : s = py_take n s +:+ py_drop n s.
Proof.
  revert s. induction n as [|n IH]; intros s; [by destruct s|].
  destruct s as [|c s]; [done|]. simpl. rewrite string_app_cons. f_equal. apply IH.
Qed.








(** ** Follow-up targets *)

(** X18: every [target_followups] but an infinite float is normalized to
    a value from 1 to 8, and a normalized value is normalized to itself. *)
Theorem target_normalizes_unless_infinite (int_of_str : string → option Z)
    (target_followups : PyVal) :
  (∀ negative, target_followups ≠ PFloat (FInf negative)) →
  ∃ n, plan_target int_of_str target_followups = Returned n ∧
       (1 ≤ n ≤ 8)%Z ∧
       plan_target int_of_str (PInt n) = Returned n.
Proof.
  intros Hfinite.
  destruct (plan_target_returns int_of_str target_followups Hfinite) as (n & Hn & Hrange).
  exists n. split; [done|]. split; [done|].
  rewrite plan_target_int. destruct (Z.eqb_spec n 0); [lia|]. f_equal. lia.
Qed.

Lemma target_normalizes_unless_infinite_witness :
  ∃ n, plan_target decimal_int (PStr "12") = Returned n ∧ (1 ≤ n ≤ 8)%Z.
Proof.
  destruct (target_normalizes_unless_infinite decimal_int (PStr "12"))
    as (n & Hn & Hrange & _); [done|eauto].
Defined.

(** X19: the planned target is one of 1, 2, 4, 6, 8, it never grows
    with the score, and the normalization leaves it as it is. *)
Theorem planned_target_falls_with_the_score (int_of_str : string → option Z)
    (score1 score2 : Q) :
  _planned_followup_target score1 ∈ [1; 2; 4; 6; 8]%Z ∧
  ((score1 <= score2)%Q →
   (_planned_followup_target score2 ≤ _planned_followup_target score1)%Z) ∧
  _normalize_followup_target int_of_str (PInt (_planned_followup_target score1))
    = Returned (_planned_followup_target score1).
Proof.
  assert (Hset : ∀ s, _planned_followup_target s ∈ [1; 2; 4; 6; 8]%Z).
  { intros s. unfold _planned_followup_target, MIN_FOLLOW_UP_COUNT, FOLLOW_UP_COUNT.
    repeat (destruct (Qle_bool _ s); [set_solver|]). set_solver. }
  split; [apply Hset|]. split.
  - intros Hle.
    unfold _planned_followup_target, MIN_FOLLOW_UP_COUNT, FOLLOW_UP_COUNT.
    destruct (Qle_bool 8 score1) eqn:A8, (Qle_bool 6 score1) eqn:A6,
             (Qle_bool 4 score1) eqn:A4, (Qle_bool 2 score1) eqn:A2,
             (Qle_bool 8 score2) eqn:B8, (Qle_bool 6 score2) eqn:B6,
             (Qle_bool 4 score2) eqn:B4, (Qle_bool 2 score2) eqn:B2;
      try lia; exfalso;
      repeat match goal with
             | H : Qle_bool _ _ = true |- _ => apply Qle_bool_iff in H
             | H : Qle_bool ?a ?b = false |- _ =>
                 assert (b < a)%Q
                   by (apply Qnot_le_lt; intros ?%Qle_bool_iff; congruence);
                 clear H
             end; lra.
  - pose proof (Hset score1) as Hin.
    unfold _normalize_followup_target, MIN_FOLLOW_UP_COUNT, FOLLOW_UP_COUNT. simpl.
    f_equal. set_unfold. lia.
Qed.

(** * Properties of the request helpers and views *)

Section RequestFacts.
Variable fl : Q → Q.
Variable int_of_str : string → option Z.
Variable float_str : Q → string.
Variable str_of_object : PyVal → string.
Variable db_text : PyVal → option string.

(** X20: [_require_fields] accepts a payload exactly when every listed
    field has a value that counts as true; otherwise the message names
    the fields, and only those, whose value is absent, null, empty, zero
    or false. *)
Theorem required_fields_are_the_truthy_ones (payload : list (string * PyVal))
    (fields : list string) :
  (_require_fields payload fields = Accepted tt ↔
   ∀ field, field ∈ fields → py_truthy (payload_get field payload) = true) ∧
  (∀ message, _require_fields payload fields = ValidationError message →
     ∃ missing, missing ≠ [] ∧
       message = "Missing required fields: " +:+ py_join ", " missing ∧
       ∀ field, field ∈ missing ↔
                field ∈ fields ∧ py_truthy (payload_get field payload) = false).
Proof.
  unfold _require_fields. cbv zeta.
  set (missing := filter _ fields).
  assert (Hmissing : ∀ field, field ∈ missing ↔
            field ∈ fields ∧ py_truthy (payload_get field payload) = false).
  { intros field. unfold missing. rewrite list_elem_of_filter. tauto. }
  split.
  - split.
    + intros Hok field Hin.
      destruct (py_truthy (payload_get field payload)) eqn:Ht; [done|].
      assert (Hm : field ∈ missing) by by apply Hmissing.
      destruct missing; [by apply elem_of_nil in Hm|done].
    + intros Hall. destruct missing as [|field rest] eqn:Hm; [done|].
      assert (Hin : field ∈ field :: rest) by left.
      apply Hmissing in Hin as [Hin Hf]. rewrite (Hall field Hin) in Hf. done.
  - intros message Hmsg. exists missing.
    destruct missing as [|field rest] eqn:Hm; [done|].
    injection Hmsg as <-. done.
Qed.

Lemma normalize_entries_spec (entries : list PyVal) (normalized : list FollowUpPair) :
  normalize_entries str_of_object entries = Accepted normalized ↔
  Forall2 (λ entry turn,
             ∃ members, entry = PDict members ∧
               py_truthy (payload_get "question" members) = true ∧
               py_truthy (payload_get "answer" members) = true ∧
               turn = {| pair_question := py_str str_of_object (payload_get "question" members);
                         pair_answer := py_str str_of_object (payload_get "answer" members) |})
          entries normalized.
Proof.
  revert normalized. induction entries as [|entry rest IH]; intros normalized.
  - simpl. split; [intros [= <-]; constructor|by intros ->%Forall2_nil_inv_l].
  - simpl. split.
    + destruct entry as [| | | | |?|members]; try done.
      destruct (py_truthy (payload_get "question" members)) eqn:Hq; [|done].
      destruct (py_truthy (payload_get "answer" members)) eqn:Ha; [|done]. simpl.
      destruct (normalize_entries str_of_object rest) as [ps|] eqn:Hrest; [|done].
      intros [= <-]. constructor; [eauto 6|by apply IH].
    + intros (turn & ps & (members & -> & Hq & Ha & ->) & Hrest & ->)%Forall2_cons_inv_l.
      rewrite Hq, Ha. simpl. apply IH in Hrest. by rewrite Hrest.
Qed.

(** X21: [_normalize_followup_pairs] accepts all entries or none: the
    result is the list of the pairs of the entries, one for one and in
    order, exactly when [followup_pairs] is a list whose every entry is
    an object with a question and an answer that count as true; any
    other payload, one without the key included, is rejected. *)
Theorem followup_pairs_all_or_nothing (payload : list (string * PyVal))
    (normalized : list FollowUpPair) :
  (_normalize_followup_pairs str_of_object payload = Accepted normalized ↔
   ∃ entries, payload_get "followup_pairs" payload = PList entries ∧
     Forall2 (λ entry turn,
                ∃ members, entry = PDict members ∧
                  py_truthy (payload_get "question" members) = true ∧
                  py_truthy (payload_get "answer" members) = true ∧
                  turn = {| pair_question :=
                              py_str str_of_object (payload_get "question" members);
                            pair_answer :=
                              py_str str_of_object (payload_get "answer" members) |})
             entries normalized) ∧
  (dict_lookup "followup_pairs" payload = None →
   _normalize_followup_pairs str_of_object payload
   = ValidationError "Field 'followup_pairs' must be a list.").
Proof.
  unfold _normalize_followup_pairs. split.
  - split.
    + destruct (payload_get "followup_pairs" payload) as [| | | | |entries|?]; try done.
      intros Hok. exists entries. split; [done|]. by apply normalize_entries_spec.
    + intros (entries & -> & Hall). by apply normalize_entries_spec.
  - intros Hnone. unfold payload_get. by rewrite Hnone.
Qed.

End RequestFacts.



Lemma _require_fields_single (payload : list (string * PyVal)) (field : string) :
  _require_fields payload [field] =
  if py_truthy (payload_get field payload) then Accepted tt
  else ValidationError ("Missing required fields: " +:+ field).
Proof.
  unfold _require_fields. cbv zeta. rewrite filter_cons, filter_nil.
  destruct (decide _) as [Hf|Ht].
  - by rewrite Hf.
  - by destruct (py_truthy (payload_get field payload)).
Qed.

Section ViewFacts.
Variable fl : Q → Q.
Variable int_of_str : string → option Z.
Variable float_str : Q → string.
Variable str_of_object : PyVal → string.
Variable db_text : PyVal → option string.


(** X23: the one-shot finalize view never answers 200: a request that
    fails validation gets 400, and every request that passes it makes the
    call of [finalize_followups] with the keyword [answer_id], which is
    no parameter of that function, so the view raises [TypeError]. *)
Theorem finalize_followups_view_never_succeeds (body : option PyVal) :
  ((∃ message, finalize_followups_view fl str_of_object body
               = JsonResponse (ErrorBody message) 400) ∨
   finalize_followups_view fl str_of_object body = ViewRaised TypeError) ∧
  (∀ payload main_answer followup_pairs,
     body = Some (PDict payload) →
     _require_fields payload ["topic"; "user"; "question"] = Accepted tt →
     _normalize_main_answer str_of_object payload = Accepted main_answer →
     _normalize_followup_pairs str_of_object payload = Accepted followup_pairs →
     finalize_followups_view fl str_of_object body = ViewRaised TypeError).
Proof.
  split.
  - unfold finalize_followups_view.
    destruct (_parse_request_body body) as [payload|message]; [|eauto].
    destruct (_require_fields payload _) as [[]|message]; [|eauto].
    destruct (_normalize_main_answer str_of_object payload) as [main_answer|message];
      [|eauto].
    destruct (_normalize_followup_pairs str_of_object payload) as [pairs|message];
      [|eauto].
    by right.
  - intros payload main_answer followup_pairs -> Hreq Hmain Hpairs.
    unfold finalize_followups_view. simpl. by rewrite Hreq, Hmain, Hpairs.
Qed.

End ViewFacts.

Example finalize_followups_view_on_a_complete_request :
  finalize_followups_view fl_exact (λ _, "object")
    (Some (PDict [("topic", PStr "algorithms"); ("user", PStr "bob");
                  ("question", PStr "Explain recursion in detail");
                  ("main_answer", PStr "It is a function calling itself.");
                  ("followup_pairs",
                   PList [PDict [("question", PStr "Why?"); ("answer", PStr "Because.")]])]))
  = ViewRaised TypeError.
Proof. reflexivity. Qed.

Example repeat_question_view_on_a_padded_question :
  repeat_question_view (λ _, "object")
    (Some (PDict [("question", PStr "  Explain recursion in detail ")]))
  = JsonResponse (RepeatBody "Explain recursion in detail" (PStr REPEAT_MESSAGE)) 200.
Proof. reflexivity. Qed.

(** ** The question endpoint *)

Lemma save_questions_tables (st : Store) (session idx : Z) (questions_list : list string) :
  let st' := save_questions st session idx questions_list in
  sessions st' = sessions st ∧ answers st' = answers st ∧ followups st' = followups st ∧
  ∀ key text, questions st !! key = Some text → questions st' !! key = Some text.
Proof.
  cbv zeta. revert st idx.
  induction questions_list as [|q rest IH]; intros st idx; simpl; [done|].
  destruct (IH (question_get_or_create st (session, idx) q) (idx + 1)%Z)
    as (Hs & Ha & Hf & Hq).
  unfold question_get_or_create in *.
  destruct (questions st !! (session, idx)) as [old|] eqn:Hold; [done|].
  simpl in *. split; [done|]. split; [done|]. split; [done|].
  intros key text Hkey. apply Hq. rewrite lookup_insert_ne; [done|]. congruence.
Qed.

Lemma generate_question_set_length (topic language : string) (count : Z)
    (draw : list nat) :
  length (generate_question_set topic count language draw)
  = Z.to_nat (Z.max 1 (Z.min count 10)) `min` length draw.
Proof.
  unfold generate_question_set, random_sample, QUESTION_COUNT.
  rewrite length_fmap, length_fmap, length_take. f_equal. simpl. lia.
Qed.

Section QuestionEndpoint.
Variable int_of_str : string → option Z.
Variable str_of_object : PyVal → string.
Variable db_text : PyVal → option string.

(** X24: for a payload with a topic, [generate_questions_view] answers
    200 with the questions of [generate_question_set] for a requested
    count that is 10 when [count] is absent, null or 0, the integer when
    it is another integer, and 10 when it is a list or an object; the
    [count] of the response is the number of questions.  An infinite
    float for [count] makes the view raise [OverflowError], the tables
    untouched. *)
Theorem questions_view_reads_the_count (st : Store) (payload : list (string * PyVal))
    (draw : list nat) :
  py_truthy (payload_get "topic" payload) = true →
  let raw_count := payload_get "count" payload in
  let result :=
    generate_questions_view int_of_str str_of_object db_text st
      (Some (PDict payload)) draw in
  ((∃ negative, raw_count = PFloat (FInf negative)) →
   result = (ViewRaised OverflowError, st)) ∧
  ((∀ negative, raw_count ≠ PFloat (FInf negative)) →
   ∃ requested,
     let questions_list :=
       generate_question_set (py_str str_of_object (payload_get "topic" payload))
         requested
         (py_str str_of_object (payload_get_or "language" (PStr "en") payload)) draw in
     result.1 = JsonResponse
                  (QuestionsBody (py_str str_of_object (payload_get "topic" payload))
                     (payload_get_or "language" (PStr "en") payload)
                     (length questions_list) questions_list) 200 ∧
     length questions_list = Z.to_nat (Z.max 1 (Z.min requested 10)) `min` length draw ∧
     (py_truthy raw_count = false → requested = 10%Z) ∧
     (∀ z, raw_count = PInt z → z ≠ 0%Z → requested = z) ∧
     (∀ items, raw_count = PList items → requested = 10%Z) ∧
     (∀ entries, raw_count = PDict entries → requested = 10%Z)).
Proof.
  intros Htopic. cbv zeta. unfold generate_questions_view. simpl.
  rewrite _require_fields_single, Htopic.
  split.
  - intros [negative Hinf]. rewrite Hinf. reflexivity.
  - intros Hfinite.
    set (raw := py_or (payload_get "count" payload) (PInt 10)).
    assert (Hcount : ∃ requested,
              match py_int int_of_str raw with
              | Returned count => Returned count
              | Raised TypeError | Raised ValueError => Returned 10%Z
              | Raised e => Raised e
              end = Returned requested ∧
              (py_truthy (payload_get "count" payload) = false → requested = 10%Z) ∧
              (∀ z, payload_get "count" payload = PInt z → z ≠ 0%Z → requested = z) ∧
              (∀ items, payload_get "count" payload = PList items → requested = 10%Z) ∧
              (∀ entries, payload_get "count" payload = PDict entries →
                          requested = 10%Z)).
    { unfold raw, py_or.
      destruct (payload_get "count" payload) as [|b|z|[q|negative|]|s|items|items] eqn:Hraw;
        simpl.
      - exists 10%Z. done.
      - destruct b; simpl; eexists; (split; [reflexivity|done]).
      - destruct (Z.eqb_spec z 0) as [->|Hz]; simpl.
        + exists 10%Z. repeat split; try done. by intros ? [= <-].
        + exists z. repeat split; try done. by intros ? [= <-].
      - destruct (Qeq_bool q 0); simpl; eexists; (split; [reflexivity|done]).
      - by destruct (Hfinite negative).
      - exists 10%Z. done.
      - destruct (String.eqb s ""); simpl; [|destruct (int_of_str s)]; eexists;
          (split; [reflexivity|done]).
      - destruct items; simpl; exists 10%Z; done.
      - destruct items; simpl; exists 10%Z; done. }
    destruct Hcount as (requested & -> & Hfalsy & Hint & Hlist & Hdict).
    exists requested. cbv zeta. simpl.
    split; [done|]. split; [apply generate_question_set_length|]. done.
Qed.

(** X25: [generate_questions_view] only adds to the tables: the answers
    and the follow-ups stay as they are, at most one session is added,
    and a question that is stored is never replaced by a newly generated
    one. *)
Theorem questions_view_only_adds (st : Store) (body : option PyVal) (draw : list nat) :
  let st' := (generate_questions_view int_of_str str_of_object db_text st body draw).2 in
  answers st' = answers st ∧
  followups st' = followups st ∧
  (∃ added, sessions st' = (sessions st ++ added)%list ∧ length added ≤ 1) ∧
  ∀ key text, questions st !! key = Some text → questions st' !! key = Some text.
Proof.
  cbv zeta.
  assert (Hsame : answers st = answers st ∧ followups st = followups st ∧
            (∃ added, sessions st = (sessions st ++ added)%list ∧ length added ≤ 1) ∧
            ∀ key text, questions st !! key = Some text → questions st !! key = Some text).
  { split; [done|]. split; [done|]. split; [|done].
    exists []. split; [by rewrite app_nil_r|simpl; lia]. }
  unfold generate_questions_view.
  destruct (_parse_request_body body) as [payload|message]; [|exact Hsame].
  destruct (_require_fields payload ["topic"]) as [[]|message]; [|exact Hsame].
  cbv zeta.
  destruct (match py_int int_of_str _ with Returned _ => _ | Raised _ => _ end)
    as [count|e]; [|exact Hsame].
  simpl. destruct (db_text _) as [name|]; [|exact Hsame].
  destruct (session_get_or_create st name _ _) as [[session st_s]|] eqn:Hs;
    [|exact Hsame].
  pose proof (save_questions_tables st_s session 0
                (generate_question_set
                   (py_str str_of_object (payload_get "topic" payload)) count
                   (py_str str_of_object (payload_get_or "language" (PStr "en") payload))
                   draw)) as (Hss & Hsa & Hsf & Hsq).
  cbv zeta in Hss, Hsa, Hsf, Hsq.
  unfold session_get_or_create in Hs.
  destruct (matching_ids _ _ _) as [|i [|j ids]]; [| |done]; injection Hs as <- <-.
  - simpl in *. rewrite Hss, Hsa, Hsf. split; [done|]. split; [done|].
    split; [eexists [_]; split; [reflexivity|simpl; lia]|exact Hsq].
  - rewrite Hss, Hsa, Hsf. split; [done|]. split; [done|].
    split; [exists []; split; [by rewrite app_nil_r|simpl; lia]|exact Hsq].
Qed.

End QuestionEndpoint.

Lemma questions_view_reads_the_count_witness :
  (generate_questions_view decimal_int (λ _, "object") (λ _, None) empty_store
     (Some (PDict [("topic", PStr "algorithms"); ("count", PFloat (FInf false))]))
     [0; 0; 0]) = (ViewRaised OverflowError, empty_store).
Proof.
  apply (questions_view_reads_the_count decimal_int (λ _, "object") (λ _, None)
           empty_store [("topic", PStr "algorithms"); ("count", PFloat (FInf false))]
           [0; 0; 0]).
  - reflexivity.
  - by exists false.
Defined.

(** ** The answer endpoints *)




Section AnswerEndpoints.
Variable fl : Q → Q.
Variable int_of_str : string → option Z.
Variable float_str : Q → string.
Variable str_of_object : PyVal → string.



End AnswerEndpoints.


(** ** The average of the scores *)

Lemma round_half_even_ge (x : Q) (m : Z) :
  (inject_Z m <= x)%Q → (m ≤ round_half_even x)%Z.
Proof.
  intros Hx. unfold round_half_even.
  assert (Hlow : (m ≤ Qfloor x)%Z).
  { apply Qfloor_resp_le in Hx. by rewrite Qfloor_Z in Hx. }
  destruct (Qltb _ _); [done|]. destruct (Qltb _ _); [lia|].
  destruct (Z.even _); lia.
Qed.

Lemma nearest_tenth_nonneg (x : Q) : (0 <= x)%Q → (0 <= nearest_tenth x)%Q.
Proof.
  intros Hx. unfold nearest_tenth. rewrite Qred_correct.
  assert (H0 : (0 ≤ round_half_even (x * 10))%Z).
  { apply round_half_even_ge. change (inject_Z 0) with 0%Q. lra. }
  apply (tenth_le 0) in H0.
  assert (Hzero : (inject_Z 0 / 10 == 0)%Q) by reflexivity.
  by rewrite Hzero in H0.
Qed.

Lemma half_le (a b : Z) : (a ≤ b)%Z → (a # 2 <= b # 2)%Q.
Proof. intros H. unfold Qle. simpl. lia. Qed.

Lemma half_add (a b : Z) : ((a # 2) + (b # 2) == (a + b) # 2)%Q.
Proof. unfold Qeq, Qplus. simpl. lia. Qed.

Section AverageBounds.
Variable fl : Q → Q.
Hypothesis fl_monotone : ∀ x y : Q, (x <= y)%Q → (fl x <= fl y)%Q.
Hypothesis fl_halves : ∀ n : Z, (Z.abs n ≤ 2 ^ 53)%Z → (fl (n # 2) == n # 2)%Q.

Lemma fl_nonneg (x : Q) : (0 <= x)%Q → (0 <= fl x)%Q.
Proof.
  intros Hx.
  assert (H : (0 # 2 <= fl x)%Q).
  { apply (fl_ge_half fl fl_monotone fl_halves _ 0); [lia|].
    assert (Hzero : (0 # 2 == 0)%Q) by reflexivity. by rewrite Hzero. }
  assert (Hzero : (0 # 2 == 0)%Q) by reflexivity. by rewrite Hzero in H.
Qed.

Lemma running_sum_bound (n : Z) (scores : list Q) (k : Z) (acc : Q) :
  (0 ≤ n)%Z → (0 ≤ k)%Z →
  ((k + Z.of_nat (length scores)) * n ≤ 2 ^ 53)%Z →
  (0 <= acc <= (k * n) # 2)%Q →
  Forall (λ s, (0 <= s <= n # 2)%Q) scores →
  (0 <= foldl (λ acc s, fl (acc + s)) acc scores
     <= ((k + Z.of_nat (length scores)) * n) # 2)%Q.
Proof.
  intros Hn. revert k acc.
  induction scores as [|s rest IH]; intros k acc Hk Hlen Hacc Hall.
  - simpl. by rewrite Z.add_0_r.
  - apply Forall_cons_1 in Hall as [Hs Hrest]. simpl foldl.
    simpl length in *.
    replace (k + Z.of_nat (S (length rest)))%Z
      with ((k + 1) + Z.of_nat (length rest))%Z in * by lia.
    apply IH; [lia|done| |done].
    pose proof (half_add (k * n) n) as Hadd.
    split.
    + apply fl_nonneg.
      destruct Hacc as [Ha _]. destruct Hs as [Hs _].
      revert Ha Hs. generalize acc s. intros a b ? ?. lra.
    + apply (fl_le_half fl fl_monotone fl_halves); [nia|].
      replace ((k + 1) * n)%Z with (k * n + n)%Z by lia.
      rewrite <- Hadd.
      destruct Hacc as [_ Ha]. destruct Hs as [_ Hs].
      by apply Qplus_le_compat.
Qed.

(** X28: the average stays within the range of the scores: when the
    original score and the follow-up scores lie between 0 and [n/2], for
    an integer [n] from 0 to 20, so does [calculate_average_score] of
    them.  With [n = 20] this is the range 0.0 to 10.0 of the scale. *)
Theorem average_stays_in_range (original_score : Q) (followup_scores : list Q) (n : Z) :
  (0 ≤ n ≤ 20)%Z →
  (Z.of_nat (length followup_scores) < 2 ^ 40)%Z →
  (0 <= original_score <= n # 2)%Q →
  Forall (λ s, (0 <= s <= n # 2)%Q) followup_scores →
  (0 <= calculate_average_score fl original_score followup_scores <= n # 2)%Q.
Proof.
  intros Hn Hlen Horiginal Hfollowups. unfold calculate_average_score.
  destruct followup_scores as [|s rest] eqn:Hscores; [done|].
  rewrite <- Hscores in *. clear Hscores s rest. cbv zeta.
  set (all_scores := original_score :: followup_scores).
  assert (Hall : Forall (λ s, (0 <= s <= n # 2)%Q) all_scores) by by constructor.
  assert (Hcount : Z.of_nat (length all_scores)
                   = (Z.of_nat (length followup_scores) + 1)%Z) by (simpl; lia).
  pose proof (running_sum_bound n all_scores 0 0%Q ltac:(lia) ltac:(lia)) as Hsum.
  fold (py_sum fl all_scores) in Hsum.
  rewrite Z.add_0_l in Hsum.
  destruct Hsum as [Hsum0 Hsum1]; [nia|done|done|].
  set (m := Z.of_nat (length all_scores)) in *.
  assert (Hm : (float_of_int fl m == inject_Z m)%Q)
    by (apply float_of_int_small; [done|done|lia]).
  assert (Hpos : (0 < inject_Z m)%Q) by (rewrite <- (Zlt_Qlt 0); lia).
  assert (Hquot : (0 <= py_sum fl all_scores / float_of_int fl m <= n # 2)%Q).
  { rewrite Hm. split.
    - apply Qle_shift_div_l; [done|]. by rewrite Qmult_0_l.
    - apply Qle_shift_div_r; [done|].
      assert (Heq : ((n # 2) * inject_Z m == (m * n) # 2)%Q).
      { unfold Qeq, Qmult, inject_Z. simpl. lia. }
      by rewrite Heq. }
  destruct Hquot as [Hq0 Hq1].
  assert (Hf0 : (0 <= fl (py_sum fl all_scores / float_of_int fl m))%Q).
    by apply fl_nonneg.
  assert (Hf1 : (fl (py_sum fl all_scores / float_of_int fl m) <= n # 2)%Q)
    by (apply (fl_le_half fl fl_monotone fl_halves); [lia|done]).
  unfold py_round1. split.
  - by apply fl_nonneg, nearest_tenth_nonneg.
  - apply (fl_le_half fl fl_monotone fl_halves); [lia|].
    assert (Heq : (n # 2 == inject_Z (5 * n) / 10)%Q).
    { unfold Qeq, Qdiv, Qmult, Qinv, inject_Z. simpl. lia. }
    rewrite Heq. apply nearest_tenth_le.
    assert (Hten : ((n # 2) * 10 == inject_Z (5 * n))%Q).
    { unfold Qeq, Qmult, inject_Z. simpl. lia. }
    rewrite <- Hten. by apply Qmult_le_compat_r.
Qed.

End AverageBounds.

Lemma average_stays_in_range_witness :
  (0 <= calculate_average_score fl_exact (13 # 2) [0; 3; 5 # 2]%Q <= 13 # 2)%Q.
Proof.
  apply (average_stays_in_range fl_exact fl_exact_monotone fl_exact_halves
           (13 # 2) [0; 3; 5 # 2]%Q 13).
  - lia.
  - simpl. lia.
  - split; [done|apply Qle_refl].
  - repeat constructor; done.
Defined.

(** ** The range of the report *)

Section ReportRange.
Variable fl : Q → Q.
Variable int_of_str : string → option Z.
Variable float_str : Q → string.
Hypothesis fl_monotone : ∀ x y : Q, (x <= y)%Q → (fl x <= fl y)%Q.
Hypothesis fl_halves : ∀ n : Z, (Z.abs n ≤ 2 ^ 53)%Z → (fl (n # 2) == n # 2)%Q.

Lemma individual_score_range (question answer_text language : string) :
  (0 <= score (evaluate_answer_individually fl question answer_text language)
     <= 13 # 2)%Q.
Proof.
  unfold evaluate_answer_individually. cbv zeta.
  destruct (decide _); simpl; [split; [apply Qle_refl|done]|].
  split; [apply clamp_score_range|].
  apply (clamp_score_le fl fl_monotone fl_halves _ 13); [lia|].
  by apply raw_score_le_13_2.
Qed.

(** X29: the report of a completed continuation is never in the strong
    tier: with all 8 follow-ups submitted and a target that is no
    infinite float, [continue_followups] returns the evaluation, in
    which the original score, every follow-up score and the final score
    (which is the average score) lie between 0.0 and 6.5. *)
Theorem report_scores_at_most_6_5 (st : Store)
    (topic user question main_answer language : string)
    (followup_pairs : list FollowUpPair) (target_followups : PyVal)
    (answer_id : option Z) (draw : nat) :
  (∀ negative, target_followups ≠ PFloat (FInf negative)) →
  8 ≤ length followup_pairs →
  (Z.of_nat (length followup_pairs) < 2 ^ 40)%Z →
  ∃ r,
    (continue_followups fl int_of_str float_str st topic user question main_answer
       followup_pairs language target_followups answer_id draw).1
    = Returned (Evaluated r) ∧
    (0 <= r_original_score r <= 13 # 2)%Q ∧
    Forall (λ s, (0 <= s <= 13 # 2)%Q) (r_followup_scores r) ∧
    length (r_followup_scores r) = length followup_pairs ∧
    r_final_score r = r_average_score r ∧
    (0 <= r_final_score r <= 13 # 2)%Q.
Proof.
  intros Hfinite Hall Hlen.
  destruct (plan_target_returns int_of_str target_followups Hfinite) as (n & Hn & _).
  unfold continue_followups. rewrite Hn. cbv zeta.
  assert (Hfin : (FOLLOW_UP_COUNT <=? Z.of_nat (length followup_pairs))%Z = true)
    by (apply Z.leb_le; unfold FOLLOW_UP_COUNT; lia).
  rewrite Hfin. eexists. split; [reflexivity|]. simpl.
  assert (Hscores : Forall (λ s, (0 <= s <= 13 # 2)%Q)
                      (fe_score <$> (evaluate_pair fl language <$> followup_pairs))).
  { rewrite <- list_fmap_compose. apply Forall_fmap, Forall_forall.
    intros turn _. apply individual_score_range. }
  split; [apply individual_score_range|]. split; [exact Hscores|].
  split; [by rewrite !length_fmap|]. split; [done|].
  apply (average_stays_in_range fl fl_monotone fl_halves _ _ 13);
    [lia|by rewrite !length_fmap|apply individual_score_range|exact Hscores].
Qed.

End ReportRange.

Lemma report_scores_at_most_6_5_witness :
  ∃ r,
    (continue_followups fl_exact decimal_int tenths_str empty_store "algorithms" "bob"
       "Explain recursion in detail" "It is a function calling itself."
       (replicate 8 sample_turn) "en" PNone None 0).1
    = Returned (Evaluated r) ∧
    (0 <= r_final_score r <= 13 # 2)%Q.
Proof.
  destruct (report_scores_at_most_6_5 fl_exact decimal_int tenths_str
              fl_exact_monotone fl_exact_halves empty_store "algorithms" "bob"
              "Explain recursion in detail" "It is a function calling itself." "en"
              (replicate 8 sample_turn) PNone None 0)
    as (r & Hr & _ & _ & _ & _ & Hrange).
  - done.
  - rewrite length_replicate. lia.
  - rewrite length_replicate. simpl. lia.
  - exists r. split; [exact Hr|exact Hrange].
Defined.

Example continue_view_on_an_infinite_target :
  continue_followups_view fl_exact decimal_int tenths_str (λ _, "object") empty_store
    (Some (PDict [("topic", PStr "algorithms"); ("user", PStr "bob");
                  ("question", PStr "Explain recursion in detail");
                  ("main_answer", PStr "It is a function calling itself.");
                  ("followup_pairs", PList []);
                  ("target_followups", PFloat (FInf false))])) 0
  = Some (ViewRaised OverflowError, empty_store).
Proof. reflexivity. Qed.

Example continue_view_without_pairs :
  continue_followups_view fl_exact decimal_int tenths_str (λ _, "object") empty_store
    (Some (PDict [("topic", PStr "algorithms"); ("user", PStr "bob");
                  ("question", PStr "Explain recursion in detail");
                  ("main_answer", PStr "It is a function calling itself.")])) 0
  = Some (JsonResponse (ErrorBody "Field 'followup_pairs' must be a list.") 400,
          empty_store).
Proof. reflexivity. Qed.
